(** * Sum of positive pairwise differences: the Python sources, embedded and verified

    The repository computes, for an integer sequence [a], the sum over all
    index pairs [i < j] with [a[j] > a[i]] of [a[j] - a[i]].  This file embeds
    the functions of [complete_solution.py], [optimized_sum_algorithm.py],
    [memory_optimized_solution.py], [simple_memory_optimized.py] and
    [sum_positive_differences.py] as Rocq functions and proves the properties
    of the specification about them.

    Conventions of the embedding:
    - a Python [int] is a [Z]; a Python [list] of ints is a [list Z];
    - a [dict] is a [gmap], a [set] is a [gset];
    - a computation that can raise (IndexError, KeyError, ValueError) or
      fail to return has type [option _]; [None] stands for "no value is
      returned";
    - a [while] loop is a fixpoint on a fuel argument; the loop test is
      evaluated before fuel is looked at, and every caller passes a fuel
      that bounds the number of iterations (lemmas [*_fuel_irrelevant]);
    - [gc.collect()], [del] and [print] are not modelled. *)

From Stdlib Require Import ZArith Lia.
From stdpp Require Import base numbers option list sorting gmap.

Local Open Scope Z_scope.

(** ** Python primitives *)

Module Py.

(** [len(l)] *)
Definition len {A} (l : list A) : Z := Z.of_nat (length l).

(** The position that [l[idx]] designates: Python accepts [-len <= idx < len]
    and counts negative indices from the end. *)
Definition index {A} (l : list A) (idx : Z) : option nat :=
  if bool_decide (0 <= idx < len l) then Some (Z.to_nat idx)
  else if bool_decide (- len l <= idx < 0) then Some (Z.to_nat (idx + len l))
  else None.

(** [l[idx]] (IndexError is [None]) *)
Definition getitem {A} (l : list A) (idx : Z) : option A :=
  i ← index l idx; l !! i.

(** [l[idx] = v] (IndexError is [None]) *)
Definition setitem {A} (l : list A) (idx : Z) (v : A) : option (list A) :=
  i ← index l idx; Some (<[i:=v]> l).

(** [range(start, stop)] *)
Definition range (start stop : Z) : list Z :=
  (λ i : nat, start + Z.of_nat i) <$> seq 0 (Z.to_nat (stop - start)).

(** [range(start, stop, step)]; a zero step raises ValueError. *)
Definition range_step (start stop step : Z) : option (list Z) :=
  if bool_decide (step = 0) then None
  else if bool_decide (0 < step) then
    Some ((λ i : nat, start + Z.of_nat i * step) <$>
          seq 0 (Z.to_nat ((stop - start + step - 1) `div` step)))
  else
    Some ((λ i : nat, start + Z.of_nat i * step) <$>
          seq 0 (Z.to_nat ((start - stop - step - 1) `div` (- step)))).

(** [l[lo:hi]] for [0 <= lo] and [0 <= hi] (the only slices the sources take) *)
Definition slice {A} (l : list A) (lo hi : Z) : list A :=
  take (Z.to_nat hi - Z.to_nat lo)%nat (drop (Z.to_nat lo) l).

(** [for x in l: st = body(st, x)], stopping at the first exception *)
Fixpoint for_in {S A} (body : S → A → option S) (st : S) (l : list A) : option S :=
  match l with
  | [] => Some st
  | x :: l' => st' ← body st x; for_in body st' l'
  end.

(** [sorted(s)] for a set of ints: its elements in ascending order *)
Definition sorted (s : gset Z) : list Z := merge_sort Z.le (elements s).

(** [set(l)] *)
Definition set (l : list Z) : gset Z := list_to_set l.

(** [enumerate(l)] *)
Definition enumerate {A} (l : list A) : list (Z * A) :=
  imap (λ i v, (Z.of_nat i, v)) l.

(** [idx & (-idx)] *)
Definition lowbit (idx : Z) : Z := Z.land idx (- idx).

End Py.

(** ** complete_solution.py *)

(** *** class FenwickTree *)

Module FenwickTree.

Record t := mk { size : Z; count_tree : list Z; sum_tree : list Z }.

(** [__init__] *)
Definition init (size : Z) : t :=
  {| size := size;
     count_tree := replicate (Z.to_nat (size + 1)) 0;
     sum_tree := replicate (Z.to_nat (size + 1)) 0 |}.

(** The [while idx <= self.size] loop of [update]. *)
Fixpoint update_loop (fuel : nat) (self : t) (idx val : Z) : option t :=
  if bool_decide (idx <= size self) then
    match fuel with
    | O => None
    | S fuel' =>
        c ← Py.getitem (count_tree self) idx;
        count_tree' ← Py.setitem (count_tree self) idx (c + 1);
        s ← Py.getitem (sum_tree self) idx;
        sum_tree' ← Py.setitem (sum_tree self) idx (s + val);
        update_loop fuel'
          {| size := size self; count_tree := count_tree'; sum_tree := sum_tree' |}
          (idx + Py.lowbit idx) val
    end
  else Some self.

(** [update].  A non-zero index grows by at least one per iteration, so a run
    that leaves the loop does so within [size - idx + 1] iterations; a run
    that reaches [idx = 0] with [0 <= size] never leaves it. *)
Definition update (self : t) (idx val : Z) : option t :=
  update_loop (Z.to_nat (size self - idx + 1)) self idx val.

(** The [while idx > 0] loop shared by [query_count] and [query_sum]. *)
Fixpoint query_loop (fuel : nat) (tree : list Z) (idx acc : Z) : option Z :=
  if bool_decide (idx > 0) then
    match fuel with
    | O => None
    | S fuel' =>
        c ← Py.getitem tree idx;
        query_loop fuel' tree (idx - Py.lowbit idx) (acc + c)
    end
  else Some acc.

Definition query_count (self : t) (idx : Z) : option Z :=
  query_loop (Z.to_nat idx) (count_tree self) idx 0.

Definition query_sum (self : t) (idx : Z) : option Z :=
  query_loop (Z.to_nat idx) (sum_tree self) idx 0.

End FenwickTree.

Module complete_solution.

(** [calculate_positive_differences_naive] *)
Definition calculate_positive_differences_naive (arr : list Z) : option Z :=
  let n := Py.len arr in
  Py.for_in (λ total_sum i,
    Py.for_in (λ total_sum j,
      aj ← Py.getitem arr j;
      ai ← Py.getitem arr i;
      let diff := aj - ai in
      Some (if bool_decide (diff > 0) then total_sum + diff else total_sum))
      total_sum (Py.range (i + 1) n))
    0 (Py.range 0 n).

(** [{v: i + 1 for i, v in enumerate(sorted_values)}] *)
Definition value_to_rank_of (sorted_values : list Z) : gmap Z Z :=
  foldl (λ d '(i, v), <[v := i + 1]> d) ∅ (Py.enumerate sorted_values).

(** The contribution of the element in hand, computed when its rank is
    above 1: [current_val * smaller_count - smaller_sum]. *)
Definition contribution (ft : FenwickTree.t) (current_rank current_val : Z) : option Z :=
  smaller_count ← FenwickTree.query_count ft (current_rank - 1);
  smaller_sum ← FenwickTree.query_sum ft (current_rank - 1);
  Some (current_val * smaller_count - smaller_sum).

(** One iteration of the aggregation pass, on the state [(ft, total_sum)]. *)
Definition pass_body (arr : list Z) (value_to_rank : gmap Z Z)
    (st : FenwickTree.t * Z) (j : Z) : option (FenwickTree.t * Z) :=
  let '(ft, total_sum) := st in
  current_val ← Py.getitem arr j;
  current_rank ← value_to_rank !! current_val;
  total_sum' ←
    (if bool_decide (current_rank > 1) then
       c ← contribution ft current_rank current_val; Some (total_sum + c)
     else Some total_sum);
  ft' ← FenwickTree.update ft current_rank current_val;
  Some (ft', total_sum').

(** The state of the pass after the iterations [j = 0 .. m-1]. *)
Definition pass_state (arr : list Z) (m : Z) : option (FenwickTree.t * Z) :=
  let sorted_values := Py.sorted (Py.set arr) in
  let value_to_rank := value_to_rank_of sorted_values in
  let ft := FenwickTree.init (Py.len sorted_values) in
  Py.for_in (pass_body arr value_to_rank) (ft, 0) (Py.range 0 m).

(** [calculate_positive_differences_optimized] *)
Definition calculate_positive_differences_optimized (arr : list Z) : option Z :=
  let n := Py.len arr in
  if bool_decide (n <= 1) then Some 0
  else st ← pass_state arr n; Some st.2.

End complete_solution.

(** ** optimized_sum_algorithm.py *)

Module optimized_sum_algorithm.

(** [calculate_with_coordinate_compression].  The class [FenwickTree] nested
    in this function is, line for line, the class of [complete_solution.py],
    and the loop body is the one of [calculate_positive_differences_optimized];
    the embedding shares both. *)
Definition calculate_with_coordinate_compression (arr : list Z) : option Z :=
  let n := Py.len arr in
  if bool_decide (n <= 1) then Some 0
  else
    let sorted_values := Py.sorted (Py.set arr) in
    let value_to_rank := complete_solution.value_to_rank_of sorted_values in
    let ft := FenwickTree.init (Py.len sorted_values) in
    st ← Py.for_in (complete_solution.pass_body arr value_to_rank) (ft, 0) (Py.range 0 n);
    Some st.2.

(** [calculate_positive_differences_sum_efficient]: the nested merge functions
    are defined and never called. *)
Definition calculate_positive_differences_sum_efficient (arr : list Z) : option Z :=
  let n := Py.len arr in
  if bool_decide (n <= 1) then Some 0
  else calculate_with_coordinate_compression arr.

(** [calculate_positive_differences_sum_simple_optimized]: the double loop
    taken by the later index. *)
Definition calculate_positive_differences_sum_simple_optimized (arr : list Z) : option Z :=
  let n := Py.len arr in
  Py.for_in (λ total_sum j,
      current ← Py.getitem arr j;
      Py.for_in (λ total_sum i,
          ai ← Py.getitem arr i;
          Some (if bool_decide (current > ai) then total_sum + (current - ai)
                else total_sum))
        total_sum (Py.range 0 j))
    0 (Py.range 1 n).

End optimized_sum_algorithm.

(** ** memory_optimized_solution.py *)

(** *** class CompactFenwickTree *)

Module CompactFenwickTree.

Record t := mk { count_tree : gmap Z Z; sum_tree : gmap Z Z; max_idx : Z }.

(** [__init__]: two empty [defaultdict(int)] *)
Definition init : t := {| count_tree := ∅; sum_tree := ∅; max_idx := 0 |}.

(** [d[k]] on a [defaultdict(int)]: a missing key is created with value 0. *)
Definition dd_getitem (d : gmap Z Z) (k : Z) : Z * gmap Z Z :=
  match d !! k with
  | Some v => (v, d)
  | None => (0, <[k:=0]> d)
  end.

(** [d[k] += x] on a [defaultdict(int)] *)
Definition dd_add (d : gmap Z Z) (k x : Z) : gmap Z Z :=
  let '(v, d') := dd_getitem d k in <[k := v + x]> d'.

(** The [while idx > 0 and idx <= self.max_idx + 1000] loop of [update]. *)
Fixpoint update_loop (fuel : nat) (self : t) (idx val : Z) : option t :=
  if bool_decide (idx > 0 ∧ idx <= max_idx self + 1000) then
    match fuel with
    | O => None
    | S fuel' =>
        update_loop fuel'
          {| count_tree := dd_add (count_tree self) idx 1;
             sum_tree := dd_add (sum_tree self) idx val;
             max_idx := max_idx self |}
          (idx + Py.lowbit idx) val
    end
  else Some self.

(** [update]: the index stays positive and grows by at least one per
    iteration, so [max_idx + 1000] iterations are enough. *)
Definition update (self : t) (idx val : Z) : option t :=
  let self := {| count_tree := count_tree self; sum_tree := sum_tree self;
                 max_idx := Z.max (max_idx self) idx |} in
  update_loop (Z.to_nat (max_idx self + 1000)) self idx val.

(** The [while idx > 0] loop of the queries; reading a [defaultdict] may add
    a key, so the dictionary is returned with the total. *)
Fixpoint query_loop (fuel : nat) (tree : gmap Z Z) (idx acc : Z) : option (Z * gmap Z Z) :=
  if bool_decide (idx > 0) then
    match fuel with
    | O => None
    | S fuel' =>
        let '(c, tree') := dd_getitem tree idx in
        query_loop fuel' tree' (idx - Py.lowbit idx) (acc + c)
    end
  else Some (acc, tree).

Definition query_count (self : t) (idx : Z) : option (Z * t) :=
  '(count, tree) ← query_loop (Z.to_nat idx) (count_tree self) idx 0;
  Some (count, {| count_tree := tree; sum_tree := sum_tree self; max_idx := max_idx self |}).

Definition query_sum (self : t) (idx : Z) : option (Z * t) :=
  '(total, tree) ← query_loop (Z.to_nat idx) (sum_tree self) idx 0;
  Some (total, {| count_tree := count_tree self; sum_tree := tree; max_idx := max_idx self |}).

(** [clear_unused]: both dictionaries rebuilt without their zero entries *)
Definition clear_unused (self : t) : t :=
  {| count_tree := filter (λ kv, kv.2 ≠ 0) (count_tree self);
     sum_tree := filter (λ kv, kv.2 ≠ 0) (sum_tree self);
     max_idx := max_idx self |}.

End CompactFenwickTree.

Module memory_optimized_solution.

(** [get_unique_values_streaming] *)
Definition get_unique_values_streaming (arr : list Z) : gmap Z Z * Z :=
  let unique_values : gset Z := foldl (λ s val, s ∪ {[val]}) ∅ arr in
  let sorted_values := Py.sorted unique_values in
  let value_to_rank := complete_solution.value_to_rank_of sorted_values in
  (value_to_rank, Z.of_nat (size value_to_rank)).

(** The body of the inner [for j in range(batch_start, batch_end)] loop, on
    the state [(ft, total_sum)]. *)
Definition batch_body (arr : list Z) (value_to_rank : gmap Z Z)
    (st : CompactFenwickTree.t * Z) (j : Z) : option (CompactFenwickTree.t * Z) :=
  let '(ft, total_sum) := st in
  current_val ← Py.getitem arr j;
  current_rank ← value_to_rank !! current_val;
  '(ft, total_sum) ←
    (if bool_decide (current_rank > 1) then
       '(smaller_count, ft) ← CompactFenwickTree.query_count ft (current_rank - 1);
       '(smaller_sum, ft) ← CompactFenwickTree.query_sum ft (current_rank - 1);
       let contribution := current_val * smaller_count - smaller_sum in
       Some (ft, total_sum + contribution)
     else Some (ft, total_sum));
  ft ← CompactFenwickTree.update ft current_rank current_val;
  Some (ft, total_sum).

(** [calculate_positive_differences_memory_optimized] (the [gc] calls and the
    [del] statements have no effect on values) *)
Definition calculate_positive_differences_memory_optimized (arr : list Z) : option Z :=
  let n := Py.len arr in
  if bool_decide (n <= 1) then Some 0
  else
    let '(value_to_rank, unique_count) := get_unique_values_streaming arr in
    let ft := CompactFenwickTree.init in
    let batch_size := Z.min 10000 (n `div` 10 + 1) in
    batch_starts ← Py.range_step 0 n batch_size;
    st ← Py.for_in (λ st batch_start,
            let batch_end := Z.min (batch_start + batch_size) n in
            '(ft, total_sum) ←
              Py.for_in (batch_body arr value_to_rank) st (Py.range batch_start batch_end);
            if bool_decide (batch_start `mod` (batch_size * 5) = 0)
            then Some (CompactFenwickTree.clear_unused ft, total_sum)
            else Some (ft, total_sum))
          (ft, 0) batch_starts;
    Some st.2.

(** [calculate_positive_differences_chunked] (the progress [print] is not
    modelled) *)
Definition calculate_positive_differences_chunked (arr : list Z) (chunk_size : Z) : option Z :=
  let n := Py.len arr in
  if bool_decide (n <= chunk_size) then
    calculate_positive_differences_memory_optimized arr
  else
    chunk_starts ← Py.range_step 0 n chunk_size;
    Py.for_in (λ total_sum i,
        let chunk_end := Z.min (i + chunk_size) n in
        let chunk := Py.slice arr i chunk_end in
        chunk_sum ← calculate_positive_differences_memory_optimized chunk;
        let total_sum := total_sum + chunk_sum in
        Py.for_in (λ total_sum j,
            Py.for_in (λ total_sum k,
                aj ← Py.getitem arr j;
                ak ← Py.getitem arr k;
                let diff := aj - ak in
                Some (if bool_decide (diff > 0) then total_sum + diff else total_sum))
              total_sum (Py.range i chunk_end))
          total_sum (Py.range chunk_end n))
      0 chunk_starts.

End memory_optimized_solution.

(** ** simple_memory_optimized.py *)

Module simple_memory_optimized.

(** The closures [update_tree] and [query_tree] work on the two lists
    [count_tree] and [sum_tree] of the enclosing call; the embedding passes
    the pair of lists. *)

(** The [while idx <= max_rank] loop of [update_tree]. *)
Fixpoint update_tree_loop (fuel : nat) (max_rank : Z) (trees : list Z * list Z)
    (idx val : Z) : option (list Z * list Z) :=
  if bool_decide (idx <= max_rank) then
    match fuel with
    | O => None
    | S fuel' =>
        c ← Py.getitem trees.1 idx;
        count_tree ← Py.setitem trees.1 idx (c + 1);
        s ← Py.getitem trees.2 idx;
        sum_tree ← Py.setitem trees.2 idx (s + val);
        update_tree_loop fuel' max_rank (count_tree, sum_tree) (idx + Py.lowbit idx) val
    end
  else Some trees.

Definition update_tree (max_rank : Z) (trees : list Z * list Z) (idx val : Z)
    : option (list Z * list Z) :=
  update_tree_loop (Z.to_nat (max_rank - idx + 1)) max_rank trees idx val.

(** The [while idx > 0] loop of [query_tree], which adds up both lists. *)
Fixpoint query_tree_loop (fuel : nat) (trees : list Z * list Z) (idx count sum_val : Z)
    : option (Z * Z) :=
  if bool_decide (idx > 0) then
    match fuel with
    | O => None
    | S fuel' =>
        c ← Py.getitem trees.1 idx;
        s ← Py.getitem trees.2 idx;
        query_tree_loop fuel' trees (idx - Py.lowbit idx) (count + c) (sum_val + s)
    end
  else Some (count, sum_val).

Definition query_tree (trees : list Z * list Z) (idx : Z) : option (Z * Z) :=
  query_tree_loop (Z.to_nat idx) trees idx 0 0.

(** The body of the loop over [j], on the state [(trees, total_sum)]. *)
Definition pass_body (arr : list Z) (value_to_rank : gmap Z Z) (max_rank : Z)
    (st : (list Z * list Z) * Z) (j : Z) : option ((list Z * list Z) * Z) :=
  let '(trees, total_sum) := st in
  current_val ← Py.getitem arr j;
  current_rank ← value_to_rank !! current_val;
  total_sum ←
    (if bool_decide (current_rank > 1) then
       '(smaller_count, smaller_sum) ← query_tree trees (current_rank - 1);
       let contribution := current_val * smaller_count - smaller_sum in
       Some (total_sum + contribution)
     else Some total_sum);
  trees ← update_tree max_rank trees current_rank current_val;
  Some (trees, total_sum).

(** [calculate_positive_differences_memory_optimized] *)
Definition calculate_positive_differences_memory_optimized (arr : list Z) : option Z :=
  let n := Py.len arr in
  if bool_decide (n <= 1) then Some 0
  else
    let unique_values := Py.sorted (Py.set arr) in
    let value_to_rank := complete_solution.value_to_rank_of unique_values in
    let max_rank := Z.of_nat (size value_to_rank) in
    let count_tree := replicate (Z.to_nat (max_rank + 1)) 0 in
    let sum_tree := replicate (Z.to_nat (max_rank + 1)) 0 in
    let batch_size := 10000 in
    batch_starts ← Py.range_step 0 n batch_size;
    st ← Py.for_in (λ st batch_start,
            let batch_end := Z.min (batch_start + batch_size) n in
            Py.for_in (pass_body arr value_to_rank max_rank) st
              (Py.range batch_start batch_end))
          ((count_tree, sum_tree), 0) batch_starts;
    Some st.2.

(** [calculate_positive_differences_streaming]; its closures [fenwick_update]
    and [fenwick_query] are [update_tree] and [query_tree] line for line. *)
Definition calculate_positive_differences_streaming (arr : list Z) : option Z :=
  let n := Py.len arr in
  if bool_decide (n <= 1) then Some 0
  else
    let unique_set : gset Z := foldl (λ s val, s ∪ {[val]}) ∅ arr in
    let sorted_unique := Py.sorted unique_set in
    let value_to_rank := complete_solution.value_to_rank_of sorted_unique in
    let max_rank := Py.len sorted_unique in
    let count_tree := replicate (Z.to_nat (max_rank + 1)) 0 in
    let sum_tree := replicate (Z.to_nat (max_rank + 1)) 0 in
    st ← Py.for_in (pass_body arr value_to_rank max_rank)
           ((count_tree, sum_tree), 0) (Py.range 0 n);
    Some st.2.

End simple_memory_optimized.

(** ** sum_positive_differences.py *)

Module sum_positive_differences.

(** [calculate_positive_differences_sum_naive] *)
Definition calculate_positive_differences_sum_naive (arr : list Z) : option Z :=
  let n := Py.len arr in
  Py.for_in (λ total_sum i,
    Py.for_in (λ total_sum j,
      aj ← Py.getitem arr j;
      ai ← Py.getitem arr i;
      let diff := aj - ai in
      Some (if bool_decide (diff > 0) then total_sum + diff else total_sum))
      total_sum (Py.range (i + 1) n))
    0 (Py.range 0 n).

(** [calculate_positive_differences_sum_optimized] *)
Definition calculate_positive_differences_sum_optimized (arr : list Z) : option Z :=
  let n := Py.len arr in
  Py.for_in (λ total_sum j,
    Py.for_in (λ total_sum i,
      aj ← Py.getitem arr j;
      ai ← Py.getitem arr i;
      let diff := aj - ai in
      Some (if bool_decide (diff > 0) then total_sum + diff else total_sum))
      total_sum (Py.range 0 j))
    0 (Py.range 1 n).

(** [calculate_positive_differences_sum_advanced]: the nested merge functions
    are defined and never called. *)
Definition calculate_positive_differences_sum_advanced (arr : list Z) : option Z :=
  calculate_positive_differences_sum_optimized arr.

End sum_positive_differences.

(** ** The caller's list objects *)

(** A Python list is passed by reference.  To state what a call does to its
    argument, the functions that the interface exposes are also embedded over
    a heap of list objects, in a state-and-exception monad. *)

Module Heap.

Definition loc := positive.

Definition t := gmap loc (list Z).

Definition M (A : Type) : Type := t → option (A * t).

Definition ret {A} (x : A) : M A := λ h, Some (x, h).

Definition bind {A B} (m : M A) (f : A → M B) : M B :=
  λ h, match m h with
       | Some (x, h') => f x h'
       | None => None
       end.

(** A computation that does not touch the heap. *)
Definition lift {A} (o : option A) : M A :=
  λ h, match o with
       | Some x => Some (x, h)
       | None => None
       end.

(** [len(a)] *)
Definition len (a : loc) : M Z :=
  λ h, l ← h !! a; Some (Py.len l, h).

(** [a[idx]] *)
Definition getitem (a : loc) (idx : Z) : M Z :=
  λ h, l ← h !! a; v ← Py.getitem l idx; Some (v, h).

(** [a[idx] = v] *)
Definition setitem (a : loc) (idx v : Z) : M unit :=
  λ h, l ← h !! a; l' ← Py.setitem l idx v; Some (tt, <[a := l']> h).

(** [set(a)] *)
Definition to_set (a : loc) : M (gset Z) :=
  λ h, l ← h !! a; Some (Py.set l, h).

(** [for x in l: st = body(st, x)] *)
Fixpoint for_in {S A} (body : S → A → M S) (st : S) (l : list A) : M S :=
  match l with
  | [] => ret st
  | x :: l' => bind (body st x) (λ st', for_in body st' l')
  end.

End Heap.

#[global] Instance heap_ret : MRet Heap.M := @Heap.ret.
#[global] Instance heap_bind : MBind Heap.M := λ A B f m, Heap.bind m f.

Module by_reference.

(** The loop body of [calculate_positive_differences_optimized]; [ft] is an
    object that the call creates and that no one else can reach. *)
Definition pass_body (arr : Heap.loc) (value_to_rank : gmap Z Z)
    (st : FenwickTree.t * Z) (j : Z) : Heap.M (FenwickTree.t * Z) :=
  let '(ft, total_sum) := st in
  current_val ← Heap.getitem arr j;
  current_rank ← Heap.lift (value_to_rank !! current_val);
  total_sum' ← Heap.lift
    (if bool_decide (current_rank > 1) then
       c ← complete_solution.contribution ft current_rank current_val;
       Some (total_sum + c)
     else Some total_sum);
  ft' ← Heap.lift (FenwickTree.update ft current_rank current_val);
  mret (ft', total_sum').

(** [complete_solution.calculate_positive_differences_optimized] *)
Definition calculate_positive_differences_optimized (arr : Heap.loc) : Heap.M Z :=
  n ← Heap.len arr;
  if bool_decide (n <= 1) then mret 0
  else
    distinct ← Heap.to_set arr;
    let sorted_values := Py.sorted distinct in
    let value_to_rank := complete_solution.value_to_rank_of sorted_values in
    let ft := FenwickTree.init (Py.len sorted_values) in
    st ← Heap.for_in (pass_body arr value_to_rank) (ft, 0) (Py.range 0 n);
    mret st.2.

(** [optimized_sum_algorithm.calculate_with_coordinate_compression] *)
Definition calculate_with_coordinate_compression (arr : Heap.loc) : Heap.M Z :=
  n ← Heap.len arr;
  if bool_decide (n <= 1) then mret 0
  else
    distinct ← Heap.to_set arr;
    let sorted_values := Py.sorted distinct in
    let value_to_rank := complete_solution.value_to_rank_of sorted_values in
    let ft := FenwickTree.init (Py.len sorted_values) in
    st ← Heap.for_in (pass_body arr value_to_rank) (ft, 0) (Py.range 0 n);
    mret st.2.

End by_reference.

(** * Specification-level definitions *)

Import complete_solution.

(** ** The sum of positive pairwise differences *)

(** What the pair (earlier element, later element) adds to the answer. *)
Definition gain (later earlier : Z) : Z :=
  if bool_decide (later - earlier > 0) then later - earlier else 0.

(** The gains of the pairs made of [x] and each later element of [suf]. *)
Fixpoint gain_from (x : Z) (suf : list Z) : Z :=
  match suf with
  | [] => 0
  | y :: suf' => gain y x + gain_from x suf'
  end.

(** The gains of the pairs made of each earlier element of [pre] and [x]. *)
Fixpoint gain_over (x : Z) (pre : list Z) : Z :=
  match pre with
  | [] => 0
  | y :: pre' => gain x y + gain_over x pre'
  end.

(** The sum over all index pairs [i < j] with [a[j] > a[i]] of [a[j] - a[i]]. *)
Fixpoint positive_difference_sum (a : list Z) : Z :=
  match a with
  | [] => 0
  | x :: a' => gain_from x a' + positive_difference_sum a'
  end.

(** ** What a Fenwick tree stands for *)

(** The total weight [w v] of the inserted pairs [(r, v)] with [lo < r <= hi]. *)
Fixpoint weight_in (w : Z → Z) (lo hi : Z) (ins : list (Z * Z)) : Z :=
  match ins with
  | [] => 0
  | (r, v) :: ins' =>
      (if bool_decide (lo < r <= hi) then w v else 0) + weight_in w lo hi ins'
  end.

(** Cell [i] of the array holds the weight of the block [(i - lowbit i, i]]. *)
Definition represents (w : Z → Z) (k : Z) (tree : list Z) (ins : list (Z * Z)) : Prop :=
  Py.len tree = k + 1 ∧
  ∀ i, 1 <= i <= k →
    tree !! Z.to_nat i = Some (weight_in w (i - Py.lowbit i) i ins).

(** The array in the middle of the update for the pair [(p, val)]: the cells
    below [idx] whose block contains [p] already have the new weight. *)
Definition updating (w : Z → Z) (k : Z) (tree : list Z) (ins : list (Z * Z))
    (p val idx : Z) : Prop :=
  Py.len tree = k + 1 ∧
  ∀ i, 1 <= i <= k →
    tree !! Z.to_nat i =
      Some (weight_in w (i - Py.lowbit i) i ins +
            (if bool_decide (i < idx ∧ i - Py.lowbit i < p <= i) then w val else 0)).

(** The weight of an element in the count tree and in the sum tree. *)
Definition count_weight (v : Z) : Z := 1.
Definition sum_weight (v : Z) : Z := v.

(** Both arrays of a [FenwickTree] of size [k] stand for the insertions [ins]. *)
Definition tree_inv (k : Z) (ft : FenwickTree.t) (ins : list (Z * Z)) : Prop :=
  FenwickTree.size ft = k ∧
  represents count_weight k (FenwickTree.count_tree ft) ins ∧
  represents sum_weight k (FenwickTree.sum_tree ft) ins.

(** The number, and the value-sum, of the inserted pairs of rank at most [r]. *)
Definition count_upto (r : Z) (ins : list (Z * Z)) : Z :=
  Py.len (filter (λ rv, rv.1 <= r) ins).

Definition sum_upto (r : Z) (ins : list (Z * Z)) : Z :=
  foldr Z.add 0 ((filter (λ rv, rv.1 <= r) ins).*2).

(** A sequence of insertions, in order. *)
Definition insert_all (ft : FenwickTree.t) (ins : list (Z * Z)) : option FenwickTree.t :=
  Py.for_in (λ ft rv, FenwickTree.update ft rv.1 rv.2) ft ins.

(** ** Rank compression *)

(** The sorted distinct values of an array, its rank dictionary and its number
    of ranks, as the implementations build them. *)
Definition sorted_values_of (arr : list Z) : list Z := Py.sorted (Py.set arr).

Definition rank_of (arr : list Z) : gmap Z Z := value_to_rank_of (sorted_values_of arr).

Definition rank_count (arr : list Z) : Z := Py.len (sorted_values_of arr).

(** ** The aggregation pass *)

(** The pairs [(rank, value)] inserted for the elements [pre], in order. *)
Definition inserted (value_to_rank : gmap Z Z) (pre : list Z) : list (Z * Z) :=
  (λ v, (default 0 (value_to_rank !! v), v)) <$> pre.

(** ** An input on which the dictionary-backed tree loses a pair *)

(** [0, 1024, 1, 2, ..., 1023]: 1025 distinct values; the first element has
    rank 1 and the second has rank 1025. *)
Definition bug_input : list Z := 0 :: 1024 :: Py.range 1 1024.

(** ** What a dictionary-backed tree stands for *)

(** Reading cell [i] of a [defaultdict(int)]: a missing key reads as 0. *)
Definition cell (tree : gmap Z Z) (i : Z) : Z := default 0 (tree !! i).

(** The cells up to 1023 hold the weights of their blocks.  (The lowest set
    bit of such a cell is at most 512, so the update of a pair in its block
    reaches it before the bound [max_idx + 1000] stops the walk.) *)
Definition compact_represents (w : Z → Z) (tree : gmap Z Z) (ins : list (Z * Z)) : Prop :=
  ∀ i, 1 <= i <= 1023 → cell tree i = weight_in w (i - Py.lowbit i) i ins.

Definition compact_updating (w : Z → Z) (tree : gmap Z Z) (ins : list (Z * Z))
    (p val idx : Z) : Prop :=
  ∀ i, 1 <= i <= 1023 →
    cell tree i =
      weight_in w (i - Py.lowbit i) i ins +
      (if bool_decide (i < idx ∧ i - Py.lowbit i < p <= i) then w val else 0).

Definition compact_inv (ft : CompactFenwickTree.t) (ins : list (Z * Z)) : Prop :=
  compact_represents count_weight (CompactFenwickTree.count_tree ft) ins ∧
  compact_represents sum_weight (CompactFenwickTree.sum_tree ft) ins.

(** A sequence of insertions into a dictionary-backed tree, in order. *)
Definition compact_insert_all (ft : CompactFenwickTree.t) (ins : list (Z * Z))
    : option CompactFenwickTree.t :=
  Py.for_in (λ ft rv, CompactFenwickTree.update ft rv.1 rv.2) ft ins.

(** ** Pairs across two consecutive parts of a sequence *)

(** The gains of the pairs made of an element of [l1] and a later element of
    [l2]. *)
Definition cross_gain (l1 l2 : list Z) : Z :=
  foldr (λ y acc, gain_over y l1 + acc) 0 l2.

(** ** The pass over the list-backed closures *)

(** The state after the first [m] elements: the two lists are those of a
    dense tree that holds these elements, and the running total is the answer
    for them. *)
Definition simple_pass_inv (arr : list Z) (m : Z) (st : (list Z * list Z) * Z) : Prop :=
  0 <= m <= Py.len arr ∧
  ∃ ft, tree_inv (rank_count arr) ft (inserted (rank_of arr) (take (Z.to_nat m) arr)) ∧
        st = ((FenwickTree.count_tree ft, FenwickTree.sum_tree ft),
              positive_difference_sum (take (Z.to_nat m) arr)).

(** ** The pass over the dictionary-backed tree *)

(** The state after the first [m] elements: the tree holds these elements up
    to cell 1023, and the running total is the answer for them. *)
Definition compact_pass_inv (arr : list Z) (m : Z) (st : CompactFenwickTree.t * Z) : Prop :=
  0 <= m <= Py.len arr ∧
  ∃ ft, compact_inv ft (inserted (rank_of arr) (take (Z.to_nat m) arr)) ∧
        st = (ft, positive_difference_sum (take (Z.to_nat m) arr)).

(** ** The chunked variant *)

(** The total after the chunks that end at position [m]: the gains of all
    pairs whose earlier element is before [m]. *)
Definition chunked_inv (arr : list Z) (m : Z) (total_sum : Z) : Prop :=
  0 <= m <= Py.len arr ∧
  total_sum = positive_difference_sum arr
              - positive_difference_sum (drop (Z.to_nat m) arr).

(** * Verification *)

(** ** Python primitives *)

Section py_facts.

Lemma range_nil a b : b <= a → Py.range a b = [].
Proof. intros H. unfold Py.range. replace (Z.to_nat (b - a)) with 0%nat by lia. reflexivity. Qed.

Lemma range_cons a b : a < b → Py.range a b = a :: Py.range (a + 1) b.
Proof.
  intros H. unfold Py.range.
  replace (Z.to_nat (b - a)) with (S (Z.to_nat (b - (a + 1)))) by lia.
  cbn [seq fmap list_fmap]. f_equal; [lia|].
  rewrite <- fmap_S_seq, <- list_fmap_compose.
  apply list_fmap_ext. intros _ i _. cbn. lia.
Qed.

Lemma range_snoc a b : a <= b → Py.range a (b + 1) = Py.range a b ++ [b].
Proof.
  intros H. unfold Py.range.
  replace (Z.to_nat (b + 1 - a)) with (Z.to_nat (b - a) + 1)%nat by lia.
  rewrite seq_app, fmap_app. cbn. do 2 f_equal. lia.
Qed.

Lemma for_in_app {S A} (body : S → A → option S) st l1 l2 :
  Py.for_in body st (l1 ++ l2) = st' ← Py.for_in body st l1; Py.for_in body st' l2.
Proof.
  revert st. induction l1 as [|x l1 IH]; intros st; cbn; [reflexivity|].
  destruct (body st x); cbn; [apply IH | reflexivity].
Qed.

Lemma getitem_lookup {A} (l : list A) (i : nat) :
  (i < length l)%nat → Py.getitem l (Z.of_nat i) = l !! i.
Proof.
  intros H. unfold Py.getitem, Py.index, Py.len.
  rewrite bool_decide_eq_true_2 by lia. cbn. rewrite Nat2Z.id. reflexivity.
Qed.

Lemma getitem_middle {A} (pre suf : list A) x :
  Py.getitem (pre ++ x :: suf) (Py.len pre) = Some x.
Proof.
  unfold Py.len. rewrite getitem_lookup by (rewrite length_app; cbn; lia).
  apply list_lookup_middle. reflexivity.
Qed.

Lemma len_app {A} (l1 l2 : list A) : Py.len (l1 ++ l2) = Py.len l1 + Py.len l2.
Proof. unfold Py.len. rewrite length_app. lia. Qed.

Lemma len_nonneg {A} (l : list A) : 0 <= Py.len l.
Proof. unfold Py.len. lia. Qed.

End py_facts.

(** ** The reference double loop computes the sum of positive differences *)

Section naive.

Lemma gain_nonneg x y : 0 <= gain x y.
Proof. unfold gain. case_bool_decide; lia. Qed.

Lemma gain_over_nonneg x pre : 0 <= gain_over x pre.
Proof. induction pre as [|y pre IH]; cbn; [lia|]. pose proof (gain_nonneg x y). lia. Qed.

Lemma gain_from_app x l1 l2 : gain_from x (l1 ++ l2) = gain_from x l1 + gain_from x l2.
Proof. induction l1 as [|y l1 IH]; cbn; lia. Qed.

(** The sum can be accumulated by the later element of each pair. *)
Lemma positive_difference_sum_snoc a x :
  positive_difference_sum (a ++ [x]) = positive_difference_sum a + gain_over x a.
Proof.
  induction a as [|y a IH]; cbn; [lia|].
  rewrite IH, gain_from_app. cbn. lia.
Qed.

(** The answer for a prefix is at most the answer for the whole sequence. *)
Lemma positive_difference_sum_app_le l1 l2 :
  positive_difference_sum l1 <= positive_difference_sum (l1 ++ l2).
Proof.
  induction l2 as [|x l2 IH] using rev_ind.
  - rewrite app_nil_r. lia.
  - rewrite app_assoc, positive_difference_sum_snoc.
    pose proof (gain_over_nonneg x (l1 ++ l2)). lia.
Qed.

Lemma naive_inner (arr : list Z) (i ai : Z) :
  Py.getitem arr i = Some ai →
  ∀ suf pre acc,
  arr = pre ++ suf →
  Py.for_in (λ total_sum j,
      aj ← Py.getitem arr j;
      ai ← Py.getitem arr i;
      let diff := aj - ai in
      Some (if bool_decide (diff > 0) then total_sum + diff else total_sum))
    acc (Py.range (Py.len pre) (Py.len arr)) = Some (acc + gain_from ai suf).
Proof.
  intros Hi. rewrite Hi. cbn [mbind option_bind]. cbv zeta.
  intros suf. induction suf as [|y suf IH]; intros pre acc Harr.
  - rewrite range_nil by (subst arr; rewrite app_nil_r; lia). cbn. f_equal. lia.
  - rewrite range_cons by (subst arr; rewrite len_app; unfold Py.len; cbn; lia).
    cbn [Py.for_in].
    replace (Py.getitem arr (Py.len pre)) with (Some y)
      by (subst arr; symmetry; apply getitem_middle).
    cbn [mbind option_bind].
    specialize (IH (pre ++ [y])
      (if bool_decide (y - ai > 0) then acc + (y - ai) else acc)).
    rewrite len_app in IH. change (Py.len [y]) with 1 in IH.
    rewrite IH by (subst arr; rewrite <- app_assoc; reflexivity).
    f_equal. cbn. unfold gain. case_bool_decide; lia.
Qed.

(** [calculate_positive_differences_naive] returns the sum over all pairs. *)
Lemma naive_correct arr :
  calculate_positive_differences_naive arr = Some (positive_difference_sum arr).
Proof.
  unfold calculate_positive_differences_naive. cbv zeta.
  enough (H : ∀ suf pre acc, arr = pre ++ suf →
    Py.for_in (λ total_sum i,
      Py.for_in (λ total_sum j,
        aj ← Py.getitem arr j;
        ai ← Py.getitem arr i;
        let diff := aj - ai in
        Some (if bool_decide (diff > 0) then total_sum + diff else total_sum))
        total_sum (Py.range (i + 1) (Py.len arr)))
      acc (Py.range (Py.len pre) (Py.len arr)) =
    Some (acc + positive_difference_sum suf)).
  { apply (H arr [] 0). reflexivity. }
  intros suf. induction suf as [|x suf IH]; intros pre acc Harr.
  - rewrite range_nil by (subst arr; rewrite app_nil_r; lia). cbn. f_equal. lia.
  - rewrite range_cons by (subst arr; rewrite len_app; unfold Py.len; cbn; lia).
    cbn [Py.for_in].
    assert (Hx : Py.getitem arr (Py.len pre) = Some x)
      by (subst arr; apply getitem_middle).
    pose proof (naive_inner arr (Py.len pre) x Hx suf (pre ++ [x]) acc) as Hin.
    rewrite len_app in Hin. change (Py.len [x]) with 1 in Hin.
    cbv zeta in Hin, IH |- *.
    rewrite Hin by (subst arr; rewrite <- app_assoc; reflexivity). cbn [mbind option_bind].
    specialize (IH (pre ++ [x]) (acc + gain_from x suf)).
    rewrite len_app in IH. change (Py.len [x]) with 1 in IH.
    rewrite IH by (subst arr; rewrite <- app_assoc; reflexivity).
    f_equal. cbn. lia.
Qed.

End naive.

(** ** The lowest set bit, [idx & (-idx)] *)

Section lowbit.

Lemma land_even_even a b : Z.land (2 * a) (2 * b) = 2 * Z.land a b.
Proof.
  replace (2 * a) with (Z.shiftl a 1) by (rewrite Z.shiftl_mul_pow2; lia).
  replace (2 * b) with (Z.shiftl b 1) by (rewrite Z.shiftl_mul_pow2; lia).
  rewrite <- Z.shiftl_land, Z.shiftl_mul_pow2; lia.
Qed.

Lemma land_odd_odd a b : Z.land (2 * a + 1) (2 * b + 1) = 2 * Z.land a b + 1.
Proof.
  apply Z.bits_inj'; intros n Hn.
  rewrite Z.land_spec.
  destruct (decide (n = 0)) as [->|Hne].
  - rewrite !Z.testbit_odd_0. reflexivity.
  - replace n with (Z.succ (n - 1)) by lia.
    rewrite !Z.testbit_odd_succ, Z.land_spec by lia. reflexivity.
Qed.

Lemma lowbit_even x : Py.lowbit (2 * x) = 2 * Py.lowbit x.
Proof.
  unfold Py.lowbit. replace (- (2 * x)) with (2 * - x) by lia.
  apply land_even_even.
Qed.

Lemma lowbit_odd x : Py.lowbit (2 * x + 1) = 1.
Proof.
  unfold Py.lowbit.
  replace (- (2 * x + 1)) with (2 * Z.lnot x + 1)
    by (rewrite Z.lnot_eq_pred_opp; lia).
  rewrite land_odd_odd, Z.land_lnot_diag. reflexivity.
Qed.

Lemma lowbit_pos_bounds p : 0 < Py.lowbit (Z.pos p) <= Z.pos p.
Proof.
  induction p as [p IH|p IH|].
  - change (Z.pos p~1) with (2 * Z.pos p + 1). rewrite lowbit_odd. lia.
  - change (Z.pos p~0) with (2 * Z.pos p). rewrite lowbit_even. lia.
  - vm_compute. split; [reflexivity | discriminate].
Qed.

(** For a positive index the lowest set bit is positive and at most the index. *)
Lemma lowbit_bounds i : 0 < i → 0 < Py.lowbit i <= i.
Proof. destruct i as [|p|p]; try lia. intros _. apply lowbit_pos_bounds. Qed.

(** Adding the lowest set bit at least doubles it. *)
Lemma lowbit_next i : 0 < i → 2 * Py.lowbit i <= Py.lowbit (i + Py.lowbit i).
Proof.
  destruct i as [|p|p]; try lia. intros _.
  induction p as [p IH|p IH|].
  - change (Z.pos p~1) with (2 * Z.pos p + 1). rewrite lowbit_odd.
    replace (2 * Z.pos p + 1 + 1) with (2 * Z.pos (p + 1)) by lia.
    rewrite lowbit_even. pose proof (lowbit_pos_bounds (p + 1)). lia.
  - change (Z.pos p~0) with (2 * Z.pos p). rewrite lowbit_even.
    replace (2 * Z.pos p + 2 * Py.lowbit (Z.pos p))
      with (2 * (Z.pos p + Py.lowbit (Z.pos p))) by lia.
    rewrite lowbit_even. lia.
  - vm_compute. discriminate.
Qed.

(** An index strictly inside the block that ends at [i] stays inside it when
    its lowest set bit is added. *)
Lemma lowbit_inside i p : 0 < i → i - Py.lowbit i < p < i → p + Py.lowbit p <= i.
Proof.
  destruct i as [|q|q]; try lia. intros _. revert p.
  induction q as [q IH|q IH|]; intros p.
  - change (Z.pos q~1) with (2 * Z.pos q + 1). rewrite lowbit_odd. lia.
  - change (Z.pos q~0) with (2 * Z.pos q). rewrite lowbit_even. intros Hp.
    destruct (Z.Even_or_Odd p) as [[p' ->]|[p' ->]].
    + rewrite lowbit_even.
      assert (p' + Py.lowbit p' <= Z.pos q) by (apply IH; lia). lia.
    + rewrite lowbit_odd. lia.
  - replace (Py.lowbit 1) with 1 by reflexivity. lia.
Qed.

End lowbit.

(** ** The dense Fenwick tree *)

Section fenwick.

Lemma weight_in_app w lo hi l1 l2 :
  weight_in w lo hi (l1 ++ l2) = weight_in w lo hi l1 + weight_in w lo hi l2.
Proof. induction l1 as [|[r v] l1 IH]; cbn; lia. Qed.

Lemma weight_in_empty w lo hi ins : hi <= lo → weight_in w lo hi ins = 0.
Proof.
  intros H. induction ins as [|[r v] ins IH]; cbn; [reflexivity|].
  rewrite bool_decide_eq_false_2 by lia. lia.
Qed.

Lemma weight_in_split w lo mid hi ins :
  lo <= mid <= hi →
  weight_in w lo hi ins = weight_in w lo mid ins + weight_in w mid hi ins.
Proof.
  intros H. induction ins as [|[r v] ins IH]; cbn; [reflexivity|].
  rewrite IH. repeat case_bool_decide; lia.
Qed.

Lemma represents_snoc w k tree ins p val :
  represents w k tree ((p, val) :: ins) → represents w k tree (ins ++ [(p, val)]).
Proof.
  intros [Hlen H]. split; [exact Hlen|]. intros i Hi.
  rewrite (H i Hi), weight_in_app. cbn. f_equal. lia.
Qed.

Lemma getitem_in_range (tree : list Z) (i : Z) x :
  0 <= i < Py.len tree → tree !! Z.to_nat i = Some x → Py.getitem tree i = Some x.
Proof.
  intros Hi Hx. unfold Py.getitem, Py.index.
  rewrite bool_decide_eq_true_2 by lia. exact Hx.
Qed.

Lemma setitem_in_range (tree : list Z) (i v : Z) :
  0 <= i < Py.len tree → Py.setitem tree i v = Some (<[Z.to_nat i := v]> tree).
Proof.
  intros Hi. unfold Py.setitem, Py.index.
  rewrite bool_decide_eq_true_2 by lia. reflexivity.
Qed.

(** A prefix query walks down the blocks that tile [(0, q]]. *)
Lemma query_loop_spec w k tree ins :
  represents w k tree ins →
  ∀ fuel q acc, 0 <= q <= k → (Z.to_nat q <= fuel)%nat →
  FenwickTree.query_loop fuel tree q acc = Some (acc + weight_in w 0 q ins).
Proof.
  intros [Hlen Hcells] fuel.
  induction fuel as [|fuel IH]; intros q acc Hq Hfuel.
  - assert (q = 0) as -> by lia. cbn.
    rewrite weight_in_empty by lia. f_equal. lia.
  - cbn [FenwickTree.query_loop]. case_bool_decide as Hpos.
    + pose proof (lowbit_bounds q ltac:(lia)) as Hlb.
      rewrite (getitem_in_range tree q _ ltac:(lia) (Hcells q ltac:(lia))).
      cbn [mbind option_bind].
      rewrite IH by lia. f_equal.
      rewrite (weight_in_split w 0 (q - Py.lowbit q) q) by lia. lia.
    + assert (q = 0) as -> by lia.
      rewrite weight_in_empty by lia. f_equal. lia.
Qed.

Lemma updating_start w k tree ins p val :
  represents w k tree ins → updating w k tree ins p val p.
Proof.
  intros [Hlen H]. split; [exact Hlen|]. intros i Hi.
  rewrite (H i Hi), bool_decide_eq_false_2 by lia. f_equal. lia.
Qed.

Lemma updating_end w k tree ins p val idx :
  updating w k tree ins p val idx → k < idx →
  represents w k tree ((p, val) :: ins).
Proof.
  intros [Hlen H] Hidx. split; [exact Hlen|]. intros i Hi.
  rewrite (H i Hi). cbn. f_equal. repeat case_bool_decide; lia.
Qed.

(** One iteration of the update loop: the cell at [idx] takes the weight, and
    no cell strictly between [idx] and [idx + lowbit idx] has [p] in its block. *)
Lemma updating_step w k tree ins p val idx c :
  updating w k tree ins p val idx →
  1 <= p <= idx → idx - Py.lowbit idx < p → idx <= k →
  tree !! Z.to_nat idx = Some c →
  updating w k (<[Z.to_nat idx := c + w val]> tree) ins p val (idx + Py.lowbit idx).
Proof.
  intros [Hlen H] Hp Hblock Hk Hc.
  pose proof (lowbit_bounds idx ltac:(lia)) as Hlb.
  split; [unfold Py.len in *; rewrite length_insert; exact Hlen|].
  intros i Hi. destruct (decide (i = idx)) as [->|Hne].
  - rewrite list_lookup_insert_eq by (unfold Py.len in Hlen; lia).
    rewrite (H idx Hi) in Hc. injection Hc as <-.
    rewrite bool_decide_eq_false_2 by lia.
    rewrite bool_decide_eq_true_2 by lia. f_equal. lia.
  - rewrite list_lookup_insert_ne by lia.
    rewrite (H i Hi). do 2 f_equal.
    rewrite (bool_decide_ext (i < idx ∧ i - Py.lowbit i < p <= i)
      (i < idx + Py.lowbit idx ∧ i - Py.lowbit i < p <= i)); [reflexivity|].
    split; [lia|].
    intros [Hlt Hin]. split; [|exact Hin].
    destruct (decide (i < idx)) as [|Hge]; [assumption|exfalso].
    pose proof (lowbit_inside i idx ltac:(lia) ltac:(lia)). lia.
Qed.

(** The block of the next index of the update walk still contains [p]. *)
Lemma next_block_contains idx p :
  1 <= p <= idx → idx - Py.lowbit idx < p →
  idx + Py.lowbit idx - Py.lowbit (idx + Py.lowbit idx) < p.
Proof.
  intros Hp Hblock. pose proof (lowbit_next idx ltac:(lia)). lia.
Qed.

Lemma update_loop_spec k ins p val :
  ∀ fuel ft idx,
  FenwickTree.size ft = k →
  updating count_weight k (FenwickTree.count_tree ft) ins p val idx →
  updating sum_weight k (FenwickTree.sum_tree ft) ins p val idx →
  1 <= p <= idx → idx - Py.lowbit idx < p →
  (Z.to_nat (k + 1 - idx) <= fuel)%nat →
  ∃ ft', FenwickTree.update_loop fuel ft idx val = Some ft' ∧
         tree_inv k ft' (ins ++ [(p, val)]).
Proof.
  intros fuel. induction fuel as [|fuel IH];
    intros ft idx Hsize Hcount Hsum Hp Hblock Hfuel.
  - cbn. rewrite bool_decide_eq_false_2 by lia.
    eexists; split; [reflexivity|].
    split; [exact Hsize|split]; apply represents_snoc;
      eapply updating_end; eauto; lia.
  - cbn [FenwickTree.update_loop]. case_bool_decide as Hle.
    + pose proof (lowbit_bounds idx ltac:(lia)) as Hlb.
      destruct Hcount as [Hclen Hc]. destruct Hsum as [Hslen Hs].
      pose proof (Hc idx ltac:(lia)) as Hcidx.
      pose proof (Hs idx ltac:(lia)) as Hsidx.
      rewrite (getitem_in_range (FenwickTree.count_tree ft) idx _ ltac:(lia) Hcidx). cbn [mbind option_bind].
      rewrite setitem_in_range by lia. cbn [mbind option_bind].
      rewrite (getitem_in_range (FenwickTree.sum_tree ft) idx _ ltac:(lia) Hsidx). cbn [mbind option_bind].
      rewrite setitem_in_range by lia. cbn [mbind option_bind].
      apply IH; cbn [FenwickTree.size FenwickTree.count_tree FenwickTree.sum_tree].
      * exact Hsize.
      * apply (updating_step count_weight); [split| | | |]; eauto; lia.
      * apply (updating_step sum_weight); [split| | | |]; eauto; lia.
      * lia.
      * apply next_block_contains; lia.
      * lia.
    + eexists; split; [reflexivity|].
      split; [exact Hsize|split]; apply represents_snoc;
        eapply updating_end; eauto; lia.
Qed.

(** [__init__] builds the tree of no insertion. *)
Lemma init_spec k : 0 <= k → tree_inv k (FenwickTree.init k) [].
Proof.
  intros Hk. repeat split; cbn; unfold Py.len;
    try (rewrite length_replicate; lia);
    intros i Hi; apply lookup_replicate_2; lia.
Qed.

(** [update] records one more pair. *)
Lemma update_spec k ft ins p val :
  tree_inv k ft ins → 1 <= p <= k →
  ∃ ft', FenwickTree.update ft p val = Some ft' ∧ tree_inv k ft' (ins ++ [(p, val)]).
Proof.
  intros (Hsize & Hcount & Hsum) Hp. unfold FenwickTree.update.
  pose proof (lowbit_bounds p ltac:(lia)).
  apply update_loop_spec; try (apply updating_start; assumption); lia.
Qed.

Lemma query_count_spec k ft ins q :
  tree_inv k ft ins → 0 <= q <= k →
  FenwickTree.query_count ft q = Some (weight_in count_weight 0 q ins).
Proof.
  intros (Hsize & Hcount & Hsum) Hq. unfold FenwickTree.query_count.
  rewrite (query_loop_spec _ _ _ _ Hcount) by lia. f_equal.
Qed.

Lemma query_sum_spec k ft ins q :
  tree_inv k ft ins → 0 <= q <= k →
  FenwickTree.query_sum ft q = Some (weight_in sum_weight 0 q ins).
Proof.
  intros (Hsize & Hcount & Hsum) Hq. unfold FenwickTree.query_sum.
  rewrite (query_loop_spec _ _ _ _ Hsum) by lia. f_equal.
Qed.

End fenwick.

(** ** The fuel of the loops is enough *)

Section fuel.

Lemma lowbit_opp i : Py.lowbit (- i) = Py.lowbit i.
Proof. unfold Py.lowbit. rewrite Z.opp_involutive. apply Z.land_comm. Qed.

Lemma lowbit_nonzero i : i ≠ 0 → 0 < Py.lowbit i.
Proof.
  intros Hi. destruct (decide (0 < i)) as [Hpos|Hneg].
  - apply lowbit_bounds. assumption.
  - rewrite <- lowbit_opp. apply lowbit_bounds. lia.
Qed.

(** The query loop gives the same result for every fuel from [idx] on. *)
Lemma query_loop_fuel_irrelevant tree :
  ∀ fuel1 fuel2 idx acc,
  (Z.to_nat idx <= fuel1)%nat → (Z.to_nat idx <= fuel2)%nat →
  FenwickTree.query_loop fuel1 tree idx acc = FenwickTree.query_loop fuel2 tree idx acc.
Proof.
  intros fuel1. induction fuel1 as [|fuel1 IH]; intros fuel2 idx acc H1 H2.
  - destruct fuel2; cbn; rewrite !bool_decide_eq_false_2 by lia; reflexivity.
  - cbn [FenwickTree.query_loop]. case_bool_decide as Hpos.
    + destruct fuel2 as [|fuel2]; [lia|]. cbn [FenwickTree.query_loop].
      rewrite bool_decide_eq_true_2 by assumption.
      destruct (Py.getitem tree idx) as [c|]; [|reflexivity]. cbn [mbind option_bind].
      pose proof (lowbit_bounds idx ltac:(lia)). apply IH; lia.
    + destruct fuel2; cbn; rewrite bool_decide_eq_false_2 by assumption; reflexivity.
Qed.

(** From index 0 the update loop of a tree of non-negative size never ends. *)
Lemma update_loop_zero val :
  ∀ fuel ft, 0 <= FenwickTree.size ft → FenwickTree.update_loop fuel ft 0 val = None.
Proof.
  intros fuel. induction fuel as [|fuel IH]; intros ft Hsize; cbn;
    rewrite bool_decide_eq_true_2 by assumption; [reflexivity|].
  destruct (Py.getitem (FenwickTree.count_tree ft) 0); [|reflexivity]. cbn.
  destruct (Py.setitem (FenwickTree.count_tree ft) 0 _); [|reflexivity]. cbn.
  destruct (Py.getitem (FenwickTree.sum_tree ft) 0); [|reflexivity]. cbn.
  destruct (Py.setitem (FenwickTree.sum_tree ft) 0 _); [|reflexivity]. cbn.
  apply IH. assumption.
Qed.

(** The update loop gives the same result for every fuel from
    [size - idx + 1] on. *)
Lemma update_loop_fuel_irrelevant val :
  ∀ fuel1 fuel2 ft idx,
  (Z.to_nat (FenwickTree.size ft - idx + 1) <= fuel1)%nat →
  (Z.to_nat (FenwickTree.size ft - idx + 1) <= fuel2)%nat →
  FenwickTree.update_loop fuel1 ft idx val = FenwickTree.update_loop fuel2 ft idx val.
Proof.
  intros fuel1. induction fuel1 as [|fuel1 IH]; intros fuel2 ft idx H1 H2.
  - destruct fuel2; cbn; rewrite !bool_decide_eq_false_2 by lia; reflexivity.
  - destruct (decide (idx <= FenwickTree.size ft)) as [Hle|Hgt].
    + destruct fuel2 as [|fuel2]; [lia|].
      destruct (decide (idx = 0)) as [->|Hne].
      { rewrite !update_loop_zero by assumption. reflexivity. }
      cbn [FenwickTree.update_loop]. rewrite bool_decide_eq_true_2 by assumption.
      destruct (Py.getitem (FenwickTree.count_tree ft) idx); [|reflexivity]. cbn.
      destruct (Py.setitem (FenwickTree.count_tree ft) idx _); [|reflexivity]. cbn.
      destruct (Py.getitem (FenwickTree.sum_tree ft) idx); [|reflexivity]. cbn.
      destruct (Py.setitem (FenwickTree.sum_tree ft) idx _); [|reflexivity]. cbn.
      pose proof (lowbit_nonzero idx Hne).
      apply IH; cbn [FenwickTree.size]; lia.
    + destruct fuel2; cbn; rewrite bool_decide_eq_false_2 by assumption; reflexivity.
Qed.

Lemma compact_query_loop_fuel_irrelevant :
  ∀ fuel1 fuel2 tree idx acc,
  (Z.to_nat idx <= fuel1)%nat → (Z.to_nat idx <= fuel2)%nat →
  CompactFenwickTree.query_loop fuel1 tree idx acc
  = CompactFenwickTree.query_loop fuel2 tree idx acc.
Proof.
  intros fuel1. induction fuel1 as [|fuel1 IH]; intros fuel2 tree idx acc H1 H2.
  - destruct fuel2; cbn; rewrite !bool_decide_eq_false_2 by lia; reflexivity.
  - cbn [CompactFenwickTree.query_loop]. case_bool_decide as Hpos.
    + destruct fuel2 as [|fuel2]; [lia|]. cbn [CompactFenwickTree.query_loop].
      rewrite bool_decide_eq_true_2 by assumption.
      destruct (CompactFenwickTree.dd_getitem tree idx) as [c tree'].
      pose proof (lowbit_bounds idx ltac:(lia)). apply IH; lia.
    + destruct fuel2; cbn; rewrite bool_decide_eq_false_2 by assumption; reflexivity.
Qed.

Lemma compact_update_loop_fuel_irrelevant val :
  ∀ fuel1 fuel2 ft idx,
  (Z.to_nat (CompactFenwickTree.max_idx ft + 1000 - idx + 1) <= fuel1)%nat →
  (Z.to_nat (CompactFenwickTree.max_idx ft + 1000 - idx + 1) <= fuel2)%nat →
  CompactFenwickTree.update_loop fuel1 ft idx val
  = CompactFenwickTree.update_loop fuel2 ft idx val.
Proof.
  intros fuel1. induction fuel1 as [|fuel1 IH]; intros fuel2 ft idx H1 H2.
  - destruct fuel2; cbn; rewrite !bool_decide_eq_false_2 by lia; reflexivity.
  - cbn [CompactFenwickTree.update_loop]. case_bool_decide as Hin.
    + destruct fuel2 as [|fuel2]; [lia|]. cbn [CompactFenwickTree.update_loop].
      rewrite bool_decide_eq_true_2 by assumption.
      pose proof (lowbit_bounds idx ltac:(lia)).
      apply IH; cbn [CompactFenwickTree.max_idx]; lia.
    + destruct fuel2; cbn; rewrite bool_decide_eq_false_2 by assumption; reflexivity.
Qed.

End fuel.

(** ** Rank compression *)

Section rank.

Lemma sorted_perm (s : gset Z) : Py.sorted s ≡ₚ elements s.
Proof. apply merge_sort_Permutation. Qed.

Lemma sorted_NoDup (s : gset Z) : NoDup (Py.sorted s).
Proof. rewrite sorted_perm. apply NoDup_elements. Qed.

Lemma elem_of_sorted_set (arr : list Z) v : v ∈ Py.sorted (Py.set arr) ↔ v ∈ arr.
Proof.
  rewrite sorted_perm, elem_of_elements. unfold Py.set.
  apply elem_of_list_to_set.
Qed.

Lemma sorted_StronglySorted (s : gset Z) : StronglySorted Z.le (Py.sorted s).
Proof. apply (StronglySorted_merge_sort Z.le). Qed.

Lemma StronglySorted_le_lt (l : list Z) :
  StronglySorted Z.le l → NoDup l → StronglySorted Z.lt l.
Proof.
  induction 1 as [|x l Hl IH Hx]; intros Hnd; constructor.
  - apply IH. by apply NoDup_cons in Hnd as [_ ?].
  - apply NoDup_cons in Hnd as [Hnin _].
    rewrite Forall_forall in Hx |- *. intros y Hy.
    specialize (Hx y Hy). assert (x ≠ y) by (intros ->; contradiction). lia.
Qed.

Lemma StronglySorted_lt_lookup (l : list Z) (i j : nat) x y :
  StronglySorted Z.lt l → l !! i = Some x → l !! j = Some y →
  (i < j)%nat → x < y.
Proof.
  intros Hl. revert i j. induction Hl as [|z l Hl IH Hz]; intros i j Hi Hj Hij.
  - discriminate.
  - destruct j as [|j]; [lia|]. cbn in Hj. destruct i as [|i].
    + cbn in Hi. injection Hi as ->.
      rewrite Forall_forall in Hz. apply Hz. eapply list_elem_of_lookup_2; eauto.
    + cbn in Hi. apply (IH i j); [assumption..|lia].
Qed.

(** In the sorted list of distinct values, positions and values are ordered alike. *)
Lemma sorted_lookup_lt (s : gset Z) (i j : nat) x y :
  Py.sorted s !! i = Some x → Py.sorted s !! j = Some y →
  (i < j)%nat ↔ x < y.
Proof.
  intros Hi Hj.
  pose proof (StronglySorted_le_lt _ (sorted_StronglySorted s) (sorted_NoDup s)) as Hs.
  split; [apply (StronglySorted_lt_lookup _ _ _ _ _ Hs Hi Hj)|].
  intros Hxy. destruct (decide (i < j)%nat) as [|Hge]; [assumption|exfalso].
  destruct (decide (i = j)) as [->|Hne].
  - rewrite Hi in Hj. injection Hj as ->. lia.
  - pose proof (StronglySorted_lt_lookup _ j i y x Hs Hj Hi ltac:(lia)). lia.
Qed.

Lemma value_to_rank_of_snoc l x :
  value_to_rank_of (l ++ [x]) = <[x := Py.len l + 1]> (value_to_rank_of l).
Proof.
  unfold value_to_rank_of, Py.enumerate.
  rewrite imap_app, foldl_app. cbn. rewrite Nat.add_0_r. reflexivity.
Qed.

(** The dictionary maps the value at position [i] to [i + 1], and nothing else. *)
Lemma value_to_rank_of_lookup l :
  NoDup l →
  ∀ v r, value_to_rank_of l !! v = Some r ↔
         ∃ i : nat, r = Z.of_nat i + 1 ∧ l !! i = Some v.
Proof.
  induction l as [|x l IH] using rev_ind; intros Hnd v r.
  - unfold value_to_rank_of. cbn. rewrite lookup_empty.
    split; [discriminate|]. intros (i & _ & Hi). discriminate.
  - apply NoDup_app in Hnd as (Hndl & Hdisj & _).
    rewrite value_to_rank_of_snoc. destruct (decide (x = v)) as [->|Hne].
    + rewrite lookup_insert_eq. split.
      * intros [= <-]. exists (length l). split; [reflexivity|].
        apply list_lookup_middle. reflexivity.
      * intros (i & -> & Hi). f_equal. unfold Py.len.
        destruct (decide (i < length l)%nat) as [Hlt|Hge].
        -- rewrite lookup_app_l in Hi by assumption.
           exfalso. apply (Hdisj v); [eapply list_elem_of_lookup_2; eauto|].
           apply list_elem_of_singleton. reflexivity.
        -- apply lookup_lt_Some in Hi. rewrite length_app in Hi. cbn in Hi. lia.
    + rewrite lookup_insert_ne by assumption. rewrite (IH Hndl). split.
      * intros (i & -> & Hi). exists i. split; [reflexivity|].
        apply lookup_app_l_Some. assumption.
      * intros (i & -> & Hi). exists i. split; [reflexivity|].
        apply lookup_app_Some in Hi as [Hi|[Hlen Hi]]; [assumption|].
        apply list_lookup_singleton_Some in Hi as [_ ->]. contradiction.
Qed.

End rank.

(** The facts on ranks that the aggregation pass relies on. *)
Section ranks_of_array.

Variable arr : list Z.

Lemma rank_lookup v r :
  rank_of arr !! v = Some r ↔
  ∃ i : nat, r = Z.of_nat i + 1 ∧ sorted_values_of arr !! i = Some v.
Proof. apply value_to_rank_of_lookup, sorted_NoDup. Qed.

Lemma rank_defined v : v ∈ arr → ∃ r, rank_of arr !! v = Some r.
Proof.
  intros Hv. apply elem_of_sorted_set, list_elem_of_lookup in Hv as [i Hi].
  exists (Z.of_nat i + 1). apply rank_lookup. eauto.
Qed.

Lemma rank_bounds v r : rank_of arr !! v = Some r → 1 <= r <= rank_count arr.
Proof.
  intros (i & -> & Hi)%rank_lookup. apply lookup_lt_Some in Hi.
  unfold rank_count, Py.len. lia.
Qed.

Lemma rank_elem v r : rank_of arr !! v = Some r → v ∈ arr.
Proof.
  intros (i & -> & Hi)%rank_lookup.
  apply elem_of_sorted_set. eapply list_elem_of_lookup_2; eauto.
Qed.

Lemma rank_onto r : 1 <= r <= rank_count arr → ∃ v, rank_of arr !! v = Some r.
Proof.
  intros Hr. destruct (lookup_lt_is_Some_2 (sorted_values_of arr) (Z.to_nat (r - 1))) as [v Hv].
  { unfold rank_count, Py.len in Hr. lia. }
  exists v. apply rank_lookup. exists (Z.to_nat (r - 1)). split; [lia|assumption].
Qed.

Lemma rank_lt v1 v2 r1 r2 :
  rank_of arr !! v1 = Some r1 → rank_of arr !! v2 = Some r2 →
  r1 < r2 ↔ v1 < v2.
Proof.
  intros (i & -> & Hi)%rank_lookup (j & -> & Hj)%rank_lookup.
  rewrite <- (sorted_lookup_lt _ i j v1 v2 Hi Hj). lia.
Qed.

Lemma rank_count_distinct : rank_count arr = Z.of_nat (size (Py.set arr)) ∧ rank_count arr <= Py.len arr.
Proof.
  unfold rank_count, sorted_values_of, Py.len. rewrite sorted_perm. split; [reflexivity|].
  apply inj_le, submseteq_length, NoDup_submseteq; [apply NoDup_elements|].
  intros x. rewrite elem_of_elements. unfold Py.set. apply elem_of_list_to_set.
Qed.

End ranks_of_array.

(** ** The aggregation pass of [calculate_positive_differences_optimized] *)

Section pass.

Variable arr : list Z.

(** The prefix weights below the rank of [x] are those of the earlier
    elements that are smaller than [x]. *)
Lemma smaller_weights x r pre :
  rank_of arr !! x = Some r → (∀ y, y ∈ pre → y ∈ arr) →
  x * weight_in count_weight 0 (r - 1) (inserted (rank_of arr) pre)
    - weight_in sum_weight 0 (r - 1) (inserted (rank_of arr) pre)
  = gain_over x pre.
Proof.
  intros Hx. unfold inserted.
  induction pre as [|y pre IH]; intros Hpre; cbn; [lia|].
  destruct (rank_defined arr y) as [ry Hy]; [apply Hpre; left|].
  change (rank_of arr !! y = Some ry) in Hy. rewrite Hy. cbn [default].
  pose proof (rank_bounds arr y ry Hy) as Hry.
  pose proof (rank_lt arr y x ry r Hy Hx) as Hlt.
  specialize (IH ltac:(intros z Hz; apply Hpre; right; exact Hz)).
  unfold gain, count_weight, sum_weight in *.
  repeat case_bool_decide; unfold id in *; lia.
Qed.

(** One iteration: the contribution of [arr[j]] is the total gain over the
    earlier elements, and the element is inserted at its rank. *)
Lemma pass_body_spec (j : nat) x ft total_sum :
  arr !! j = Some x →
  tree_inv (rank_count arr) ft (inserted (rank_of arr) (take j arr)) →
  ∃ r ft',
    rank_of arr !! x = Some r ∧ 1 <= r <= rank_count arr ∧
    (r > 1 → contribution ft r x = Some (gain_over x (take j arr))) ∧
    (r <= 1 → gain_over x (take j arr) = 0) ∧
    pass_body arr (rank_of arr) (ft, total_sum) (Z.of_nat j)
      = Some (ft', total_sum + gain_over x (take j arr)) ∧
    tree_inv (rank_count arr) ft' (inserted (rank_of arr) (take (S j) arr)).
Proof.
  intros Hj Hinv.
  assert (Hxin : x ∈ arr) by (eapply list_elem_of_lookup_2; eauto).
  destruct (rank_defined arr x Hxin) as [r Hr].
  change (rank_of arr !! x = Some r) in Hr.
  pose proof (rank_bounds arr x r Hr) as Hrk.
  change (1 <= r <= rank_count arr) in Hrk.
  assert (Hpre : ∀ y, y ∈ take j arr → y ∈ arr)
    by (intros y Hy; eapply subseteq_take; eauto).
  pose proof (smaller_weights x r (take j arr) Hr Hpre) as Hw.
  assert (Hcontrib : r > 1 → contribution ft r x = Some (gain_over x (take j arr))).
  { intros Hgt. unfold contribution.
    rewrite (query_count_spec (rank_count arr) ft _ (r - 1) Hinv) by lia. cbn [mbind option_bind].
    rewrite (query_sum_spec (rank_count arr) ft _ (r - 1) Hinv) by lia. cbn [mbind option_bind].
    f_equal. exact Hw. }
  assert (Hzero : r <= 1 → gain_over x (take j arr) = 0).
  { intros Hle. rewrite <- Hw.
    rewrite !weight_in_empty by lia. lia. }
  destruct (update_spec (rank_count arr) ft _ r x Hinv Hrk) as (ft' & Hupd & Hinv').
  exists r, ft'. split_and!; try assumption; try lia.
  - unfold pass_body.
    rewrite getitem_lookup by (eapply lookup_lt_Some; eauto).
    rewrite Hj. cbn [mbind option_bind]. rewrite Hr. cbn [mbind option_bind].
    case_bool_decide as Hgt.
    + rewrite (Hcontrib Hgt). cbn [mbind option_bind].
      rewrite Hupd. reflexivity.
    + cbn [mbind option_bind]. rewrite Hupd. cbn [mbind option_bind].
      rewrite Hzero by lia. do 2 f_equal. lia.
  - rewrite (take_S_r _ _ _ Hj). unfold inserted. rewrite fmap_app. cbn.
    rewrite Hr. exact Hinv'.
Qed.

(** The state after [m] iterations: the tree holds the first [m] elements and
    the running total is the answer for them. *)
Lemma pass_state_spec (m : nat) :
  (m <= length arr)%nat →
  ∃ ft, pass_state arr (Z.of_nat m)
          = Some (ft, positive_difference_sum (take m arr)) ∧
        tree_inv (rank_count arr) ft (inserted (rank_of arr) (take m arr)).
Proof.
  induction m as [|m IH]; intros Hm.
  - eexists. split; [reflexivity|]. rewrite take_0. apply init_spec, len_nonneg.
  - destruct IH as (ft & Hst & Hinv); [lia|].
    destruct (lookup_lt_is_Some_2 arr m ltac:(lia)) as [x Hx].
    destruct (pass_body_spec m x ft (positive_difference_sum (take m arr)) Hx Hinv)
      as (r & ft' & _ & _ & _ & _ & Hbody & Hinv').
    exists ft'. split; [|exact Hinv'].
    unfold pass_state in *. cbv zeta in *.
    replace (Z.of_nat (S m)) with (Z.of_nat m + 1) by lia.
    rewrite range_snoc by lia. rewrite for_in_app.
    change (Py.sorted (Py.set arr)) with (sorted_values_of arr) in Hst |- *.
    change (value_to_rank_of (sorted_values_of arr)) with (rank_of arr) in Hst |- *.
    rewrite Hst. cbn [mbind option_bind Py.for_in].
    rewrite Hbody. cbn [mbind option_bind].
    rewrite (take_S_r _ _ _ Hx), positive_difference_sum_snoc. reflexivity.
Qed.

End pass.

(** [calculate_positive_differences_optimized] returns the sum over all pairs. *)
Lemma optimized_correct arr :
  calculate_positive_differences_optimized arr = Some (positive_difference_sum arr).
Proof.
  unfold calculate_positive_differences_optimized. cbv zeta.
  case_bool_decide as Hn.
  - destruct arr as [|x [|y arr]]; [reflexivity|cbn; f_equal; lia|].
    unfold Py.len in Hn. cbn in Hn. lia.
  - destruct (pass_state_spec arr (length arr)) as (ft & Hst & _); [lia|].
    unfold Py.len. rewrite Hst. cbn. rewrite firstn_all. reflexivity.
Qed.

(** The two implementations over the dense tree agree with the reference
    double loop on every input. *)
Lemma optimized_eq_naive arr :
  calculate_positive_differences_optimized arr = calculate_positive_differences_naive arr.
Proof. rewrite optimized_correct, naive_correct. reflexivity. Qed.

Lemma coordinate_compression_eq_optimized arr :
  optimized_sum_algorithm.calculate_with_coordinate_compression arr
  = calculate_positive_differences_optimized arr.
Proof. reflexivity. Qed.

(** ** Calls leave the caller's list as it was *)

Section frame.

Lemma heap_lift_run {A} (o : option A) (h : Heap.t) :
  Heap.lift o h = x ← o; Some (x, h).
Proof. destruct o; reflexivity. Qed.

Lemma pass_body_by_reference h a arr value_to_rank st j :
  h !! a = Some arr →
  by_reference.pass_body a value_to_rank st j h
  = st' ← pass_body arr value_to_rank st j; Some (st', h).
Proof.
  intros Ha. destruct st as [ft total_sum].
  unfold by_reference.pass_body, pass_body, mbind at 1 2 3 4, heap_bind, Heap.bind.
  unfold Heap.getitem. rewrite Ha. cbn [mbind option_bind].
  destruct (Py.getitem arr j) as [x|]; [|reflexivity]. cbn [mbind option_bind].
  rewrite heap_lift_run.
  destruct (value_to_rank !! x) as [r|]; [|reflexivity]. cbn [mbind option_bind].
  rewrite heap_lift_run.
  destruct (if bool_decide (r > 1) then _ else _) as [t|]; [|reflexivity].
  cbn [mbind option_bind]. rewrite heap_lift_run.
  destruct (FenwickTree.update ft r x) as [ft'|]; reflexivity.
Qed.

Lemma for_in_by_reference h a arr value_to_rank l :
  h !! a = Some arr →
  ∀ st, Heap.for_in (by_reference.pass_body a value_to_rank) st l h
        = st' ← Py.for_in (pass_body arr value_to_rank) st l; Some (st', h).
Proof.
  intros Ha. induction l as [|j l IH]; intros st; [reflexivity|].
  cbn [Heap.for_in Py.for_in]. unfold Heap.bind.
  rewrite (pass_body_by_reference h a arr) by assumption.
  destruct (pass_body arr value_to_rank st j) as [st'|]; [|reflexivity].
  cbn [mbind option_bind]. apply IH.
Qed.

(** On a heap where [a] is the list [arr], the call gives what the function
    gives on [arr], and the same heap. *)
Lemma optimized_by_reference h a arr :
  h !! a = Some arr →
  by_reference.calculate_positive_differences_optimized a h
  = r ← calculate_positive_differences_optimized arr; Some (r, h).
Proof.
  intros Ha.
  unfold by_reference.calculate_positive_differences_optimized,
    calculate_positive_differences_optimized, pass_state.
  unfold mbind at 1, heap_bind, Heap.bind, Heap.len. rewrite Ha. cbn [mbind option_bind].
  case_bool_decide; [reflexivity|].
  unfold mbind at 1, heap_bind, Heap.bind, Heap.to_set. rewrite Ha. cbn [mbind option_bind].
  cbv zeta. unfold mbind at 1, heap_bind, Heap.bind.
  rewrite (for_in_by_reference h a arr) by assumption.
  destruct (Py.for_in _ _ _) as [st|]; reflexivity.
Qed.

End frame.

(** ** Prefix queries of the dense tree after any sequence of insertions *)

Section prefix_queries.

Lemma weight_in_count r ins :
  Forall (λ rv : Z * Z, 1 <= rv.1) ins →
  weight_in count_weight 0 r ins = count_upto r ins.
Proof.
  unfold count_upto, Py.len. induction 1 as [|[q v] ins Hq _ IH]; [reflexivity|].
  cbn [weight_in]. rewrite filter_cons. cbn in Hq |- *. rewrite IH.
  unfold count_weight. case_bool_decide; case_decide; cbn; lia.
Qed.

Lemma weight_in_sum r ins :
  Forall (λ rv : Z * Z, 1 <= rv.1) ins →
  weight_in sum_weight 0 r ins = sum_upto r ins.
Proof.
  unfold sum_upto. induction 1 as [|[q v] ins Hq _ IH]; [reflexivity|].
  cbn [weight_in]. rewrite filter_cons. cbn in Hq |- *. rewrite IH.
  unfold sum_weight. case_bool_decide; case_decide; cbn; lia.
Qed.

Lemma insert_all_spec k ins :
  Forall (λ rv : Z * Z, 1 <= rv.1 <= k) ins →
  ∀ ft ins0, tree_inv k ft ins0 →
  ∃ ft', insert_all ft ins = Some ft' ∧ tree_inv k ft' (ins0 ++ ins).
Proof.
  unfold insert_all. induction 1 as [|[p v] ins Hp _ IH]; intros ft ins0 Hinv.
  - exists ft. rewrite app_nil_r. split; [reflexivity|assumption].
  - cbn [Py.for_in fst snd]. cbn in Hp.
    destruct (update_spec k ft ins0 p v Hinv Hp) as (ft1 & -> & Hinv1).
    cbn [mbind option_bind]. destruct (IH ft1 _ Hinv1) as (ft' & Hrun & Hinv').
    exists ft'. split; [exact Hrun|]. rewrite <- app_assoc in Hinv'. exact Hinv'.
Qed.

(** After any insertions of pairs with ranks in [1, k] into an empty dense
    tree, the prefix queries at [r] return the number and the value-sum of the
    pairs of rank at most [r]. *)
Lemma dense_prefix_queries k ins r :
  0 <= k → Forall (λ rv : Z * Z, 1 <= rv.1 <= k) ins → 0 <= r <= k →
  ∃ ft, insert_all (FenwickTree.init k) ins = Some ft ∧
        FenwickTree.query_count ft r = Some (count_upto r ins) ∧
        FenwickTree.query_sum ft r = Some (sum_upto r ins).
Proof.
  intros Hk Hins Hr.
  destruct (insert_all_spec k ins Hins _ [] (init_spec k Hk)) as (ft & Hrun & Hinv).
  cbn in Hinv. exists ft.
  assert (Hpos : Forall (λ rv : Z * Z, 1 <= rv.1) ins)
    by (eapply Forall_impl; [exact Hins|]; cbn; intros; lia).
  rewrite (query_count_spec k ft ins r Hinv Hr), (query_sum_spec k ft ins r Hinv Hr).
  rewrite weight_in_count, weight_in_sum by assumption. done.
Qed.

End prefix_queries.

(** ** Sequences without an increasing pair *)

Section no_gain.

Lemma gain_from_zero x l : Forall (λ y, y <= x) l → gain_from x l = 0.
Proof.
  induction 1 as [|y l Hy _ IH]; cbn; [reflexivity|].
  rewrite IH. unfold gain. case_bool_decide; lia.
Qed.

Lemma non_increasing_sum_zero l :
  StronglySorted (λ x y, y <= x) l → positive_difference_sum l = 0.
Proof.
  induction 1 as [|x l _ IH Hx]; cbn; [reflexivity|].
  rewrite IH, gain_from_zero by assumption. reflexivity.
Qed.

Lemma strictly_decreasing_non_increasing l :
  Sorted Z.gt l → StronglySorted (λ x y, y <= x) l.
Proof.
  intros Hl. apply Sorted_StronglySorted in Hl; [|intros x y z; lia].
  induction Hl as [|x l _ IH Hx]; constructor; [assumption|].
  eapply Forall_impl; [exact Hx|]. cbn. intros; lia.
Qed.

Lemma all_equal_non_increasing c l :
  Forall (eq c) l → StronglySorted (λ x y, y <= x) l.
Proof.
  induction 1 as [|x l <- Hl IH]; constructor; [assumption|].
  eapply Forall_impl; [exact Hl|]. cbn. intros; lia.
Qed.

End no_gain.

(** ** The input that the dictionary-backed tree gets wrong *)

Lemma bug_input_answer : positive_difference_sum bug_input = 178957824.
Proof. vm_compute. reflexivity. Qed.

Lemma memory_optimized_on_bug_input :
  memory_optimized_solution.calculate_positive_differences_memory_optimized bug_input
  = Some 178956800.
Proof. vm_compute. reflexivity. Qed.

(** * The claims *)

(** C1 (the code departs from the claim).
    [calculate_positive_differences_optimized] returns what the reference
    double loop returns on every input.  On the 1025-element input
    [0, 1024, 1, ..., 1023] the reference returns 178957824 and
    [calculate_positive_differences_memory_optimized] returns 178956800: the
    pair (0, 1024) is lost, because the update for rank 1 stops at
    [max_idx + 1000 = 1001] and never reaches cell 1024. *)
Theorem memory_optimized_differs_from_naive :
  (∀ arr, calculate_positive_differences_optimized arr
          = calculate_positive_differences_naive arr) ∧
  calculate_positive_differences_naive bug_input = Some 178957824 ∧
  memory_optimized_solution.calculate_positive_differences_memory_optimized bug_input
  = Some 178956800.
Proof.
  split; [exact optimized_eq_naive|].
  rewrite naive_correct, bug_input_answer.
  split; [reflexivity|]. exact memory_optimized_on_bug_input.
Qed.

(** C2 (the code departs from the claim).  After the single insertion of the
    pair (rank 1, value 7) into an empty [CompactFenwickTree], one pair of rank
    at most 1024 is recorded, with value-sum 7, and the prefix queries at rank
    1024 return 0 and 0. *)
Theorem compact_tree_query_misses_insertion :
  ∃ ft, CompactFenwickTree.update CompactFenwickTree.init 1 7 = Some ft ∧
        fst <$> CompactFenwickTree.query_count ft 1024 = Some 0 ∧
        fst <$> CompactFenwickTree.query_sum ft 1024 = Some 0 ∧
        count_upto 1024 [(1, 7)] = 1 ∧
        sum_upto 1024 [(1, 7)] = 7.
Proof. eexists. split_and!; vm_compute; reflexivity. Qed.

(** C3.  Rank compression maps the distinct values of the sequence one-to-one
    onto the ranks [1 .. k], where [k] is the number of distinct values and is
    at most the length, and rank order is value order. *)
Theorem rank_compression_bijective_monotone (arr : list Z) :
  let sorted_values := Py.sorted (Py.set arr) in
  let value_to_rank := value_to_rank_of sorted_values in
  let k := Py.len sorted_values in
  k = Z.of_nat (size (Py.set arr)) ∧
  k <= Py.len arr ∧
  (∀ v, v ∈ arr ↔ is_Some (value_to_rank !! v)) ∧
  (∀ v r, value_to_rank !! v = Some r → 1 <= r <= k) ∧
  (∀ r, 1 <= r <= k → ∃ v, value_to_rank !! v = Some r) ∧
  (∀ v1 v2 r1 r2,
     value_to_rank !! v1 = Some r1 → value_to_rank !! v2 = Some r2 →
     (r1 < r2 ↔ v1 < v2) ∧ (r1 = r2 ↔ v1 = v2)).
Proof.
  cbv zeta. split_and!.
  - apply (rank_count_distinct arr).
  - apply (rank_count_distinct arr).
  - intros v. split.
    + intros Hv. destruct (rank_defined arr v Hv) as [r Hr]. exists r. exact Hr.
    + intros [r Hr]. exact (rank_elem arr v r Hr).
  - exact (rank_bounds arr).
  - exact (rank_onto arr).
  - intros v1 v2 r1 r2 H1 H2.
    pose proof (rank_lt arr v1 v2 r1 r2 H1 H2).
    pose proof (rank_lt arr v2 v1 r2 r1 H2 H1).
    split; [assumption|]. split; [lia|].
    intros ->. unfold rank_of, sorted_values_of in *. congruence.
Qed.

(** C4.  In the pass of [calculate_positive_differences_optimized], the
    iteration for index [j] starts from the state [(ft, total_sum)] and ends in
    [(ft', total_sum')].  When the rank of [arr[j]] is above 1 it adds the
    contribution [current_val * smaller_count - smaller_sum], which is the sum
    of the differences to the earlier, strictly smaller elements and is not
    negative; otherwise it adds nothing.  So the running total does not
    decrease, it never exceeds the total after the last iteration, and that
    last total is the value returned. *)
Theorem running_total_monotone (arr : list Z) (j : nat) :
  (j < length arr)%nat →
  ∃ ft total_sum x r ft' total_sum',
    pass_state arr (Z.of_nat j) = Some (ft, total_sum) ∧
    arr !! j = Some x ∧
    value_to_rank_of (Py.sorted (Py.set arr)) !! x = Some r ∧
    (r > 1 → ∃ c, contribution ft r x = Some c ∧
                  c = gain_over x (take j arr) ∧ 0 <= c ∧
                  total_sum' = total_sum + c) ∧
    (r <= 1 → total_sum' = total_sum) ∧
    pass_body arr (value_to_rank_of (Py.sorted (Py.set arr))) (ft, total_sum) (Z.of_nat j)
      = Some (ft', total_sum') ∧
    pass_state arr (Z.of_nat j + 1) = Some (ft', total_sum') ∧
    total_sum <= total_sum' ∧
    ∃ ft_end total_end,
      pass_state arr (Py.len arr) = Some (ft_end, total_end) ∧
      total_sum' <= total_end ∧
      calculate_positive_differences_optimized arr = Some total_end.
Proof.
  intros Hj.
  destruct (pass_state_spec arr j) as (ft & Hst & Hinv); [lia|].
  destruct (lookup_lt_is_Some_2 arr j Hj) as [x Hx].
  destruct (pass_body_spec arr j x ft (positive_difference_sum (take j arr)) Hx Hinv)
    as (r & ft' & Hr & _ & Hc & Hz & Hbody & _).
  destruct (pass_state_spec arr (length arr)) as (ft_end & Hend & _); [lia|].
  rewrite firstn_all in Hend.
  pose proof (gain_over_nonneg x (take j arr)) as Hpos.
  assert (Hsnoc : positive_difference_sum (take (S j) arr)
                  = positive_difference_sum (take j arr) + gain_over x (take j arr))
    by (rewrite (take_S_r _ _ _ Hx); apply positive_difference_sum_snoc).
  pose proof (positive_difference_sum_app_le (take (S j) arr) (drop (S j) arr)) as Hle.
  rewrite take_drop in Hle.
  exists ft, (positive_difference_sum (take j arr)), x, r, ft',
    (positive_difference_sum (take j arr) + gain_over x (take j arr)).
  split_and!.
  - exact Hst.
  - exact Hx.
  - exact Hr.
  - intros Hgt. exists (gain_over x (take j arr)). split_and!; auto.
  - intros Hle1. rewrite (Hz Hle1). lia.
  - exact Hbody.
  - unfold pass_state in *. cbv zeta in *.
    rewrite range_snoc by lia. rewrite for_in_app, Hst. cbn [mbind option_bind Py.for_in].
    change (Py.sorted (Py.set arr)) with (sorted_values_of arr).
    change (value_to_rank_of (sorted_values_of arr)) with (rank_of arr).
    rewrite Hbody. reflexivity.
  - lia.
  - exists ft_end, (positive_difference_sum arr). split_and!.
    + exact Hend.
    + lia.
    + apply optimized_correct.
Qed.

(** The last iteration on [1, 3, 2, 4]. *)
Lemma running_total_monotone_witness :
  (3 < length [1; 3; 2; 4])%nat ∧
  ∃ ft total_sum ft' total_sum',
    pass_state [1; 3; 2; 4] 3 = Some (ft, total_sum) ∧
    pass_state [1; 3; 2; 4] 4 = Some (ft', total_sum') ∧
    total_sum <= total_sum' ∧
    calculate_positive_differences_optimized [1; 3; 2; 4] = Some total_sum'.
Proof.
  assert (H : (3 < length [1; 3; 2; 4])%nat) by (simpl; lia).
  split; [exact H|].
  destruct (running_total_monotone [1; 3; 2; 4] 3 H)
    as (ft & total_sum & x & r & ft' & total_sum' & Hst & _ & _ & _ & _ & _ & Hst' & Hle
        & ft_end & total_end & Hend & _ & Hres).
  exists ft, total_sum, ft', total_sum'.
  change (Z.of_nat 3) with 3 in Hst. change (Z.of_nat 3 + 1) with 4 in Hst'.
  change (Py.len [1; 3; 2; 4]) with 4 in Hend.
  rewrite Hst' in Hend. injection Hend as _ <-.
  split_and!; assumption.
Defined.

(** C5.  On the empty sequence and on every one-element sequence the result
    is 0. *)
Theorem at_most_one_element_gives_zero (arr : list Z) :
  Py.len arr <= 1 →
  calculate_positive_differences_optimized arr = Some 0 ∧
  optimized_sum_algorithm.calculate_with_coordinate_compression arr = Some 0.
Proof.
  intros Hn.
  unfold calculate_positive_differences_optimized,
    optimized_sum_algorithm.calculate_with_coordinate_compression.
  cbv zeta. rewrite bool_decide_eq_true_2 by exact Hn. split; reflexivity.
Qed.

Lemma at_most_one_element_gives_zero_witness :
  Py.len [5] <= 1 ∧
  calculate_positive_differences_optimized [5] = Some 0 ∧
  optimized_sum_algorithm.calculate_with_coordinate_compression [5] = Some 0.
Proof.
  assert (H : Py.len [5] <= 1) by (vm_compute; discriminate).
  split; [exact H|]. exact (at_most_one_element_gives_zero [5] H).
Defined.

(** C6.  On a strictly decreasing sequence, and on a sequence whose elements
    are all equal, the result is 0. *)
Theorem no_increasing_pair_gives_zero (arr : list Z) :
  Sorted Z.gt arr ∨ (∀ x y, x ∈ arr → y ∈ arr → x = y) →
  calculate_positive_differences_optimized arr = Some 0 ∧
  optimized_sum_algorithm.calculate_with_coordinate_compression arr = Some 0.
Proof.
  intros Harr.
  pose proof (optimized_correct arr) as Hopt.
  enough (positive_difference_sum arr = 0) as Hzero
    by (rewrite Hzero in Hopt; split; exact Hopt).
  apply non_increasing_sum_zero.
  destruct Harr as [Hdec|Heq].
  - apply strictly_decreasing_non_increasing, Hdec.
  - destruct arr as [|c arr]; [constructor|].
    apply (all_equal_non_increasing c). apply Forall_forall.
    intros y Hy. apply Heq; [left|exact Hy].
Qed.

Lemma no_increasing_pair_gives_zero_witness :
  (calculate_positive_differences_optimized [5; 4; 3; 2; 1] = Some 0 ∧
   optimized_sum_algorithm.calculate_with_coordinate_compression [5; 4; 3; 2; 1] = Some 0) ∧
  (calculate_positive_differences_optimized [7; 7; 7] = Some 0 ∧
   optimized_sum_algorithm.calculate_with_coordinate_compression [7; 7; 7] = Some 0).
Proof.
  split.
  - apply (no_increasing_pair_gives_zero [5; 4; 3; 2; 1]). left.
    repeat constructor.
  - apply (no_increasing_pair_gives_zero [7; 7; 7]). right.
    intros x y Hx Hy.
    rewrite !elem_of_cons, elem_of_nil in Hx, Hy. lia.
Defined.

(** C7.  The three worked examples: [1, 3, 2, 4] gives 9, [5, 1, 3, 2] gives 3
    and [1, 2, 3, 4, 5] gives 20. *)
Theorem worked_examples :
  calculate_positive_differences_optimized [1; 3; 2; 4] = Some 9 ∧
  calculate_positive_differences_optimized [5; 1; 3; 2] = Some 3 ∧
  calculate_positive_differences_optimized [1; 2; 3; 4; 5] = Some 20.
Proof. split_and!; vm_compute; reflexivity. Qed.

(** C8.  A prefix query at rank 0 returns 0 for the count and 0 for the sum
    in every tree state; the loop test fails at once, so the result is there
    with no iteration allowed (fuel 0) and no cell is read, whatever the
    arrays are. *)
Theorem query_at_rank_zero (ft : FenwickTree.t) :
  FenwickTree.query_count ft 0 = Some 0 ∧
  FenwickTree.query_sum ft 0 = Some 0 ∧
  ∀ tree acc, FenwickTree.query_loop 0 tree 0 acc = Some acc.
Proof. split_and!; reflexivity. Qed.

(** C9.  On a heap where the caller's list [a] holds [arr], a call returns
    what the function returns on [arr] and leaves the heap, hence the list of
    the caller and every other list, as it was; a second call gives the same
    result again. *)
Theorem call_leaves_heap_unchanged (h : Heap.t) (a : Heap.loc) (arr : list Z) :
  h !! a = Some arr →
  ∃ r, calculate_positive_differences_optimized arr = Some r ∧
       by_reference.calculate_positive_differences_optimized a h = Some (r, h) ∧
       by_reference.calculate_with_coordinate_compression a h = Some (r, h) ∧
       (r1 ← by_reference.calculate_positive_differences_optimized a;
        r2 ← by_reference.calculate_positive_differences_optimized a;
        mret (r1, r2)) h = Some ((r, r), h).
Proof.
  intros Ha. exists (positive_difference_sum arr).
  pose proof (optimized_by_reference h a arr Ha) as Hcall.
  rewrite optimized_correct in Hcall |- *. cbn [mbind option_bind] in Hcall.
  split_and!; [reflexivity|exact Hcall|exact Hcall|].
  unfold mbind at 1, heap_bind, Heap.bind. rewrite Hcall.
  unfold mbind at 1, heap_bind, Heap.bind. rewrite Hcall.
  reflexivity.
Qed.

Lemma call_leaves_heap_unchanged_witness :
  ({[1%positive := [1; 3; 2; 4]]} : Heap.t) !! 1%positive = Some [1; 3; 2; 4] ∧
  ∃ r, by_reference.calculate_positive_differences_optimized 1%positive
         {[1%positive := [1; 3; 2; 4]]}
       = Some (r, {[1%positive := [1; 3; 2; 4]]}).
Proof.
  assert (H : ({[1%positive := [1; 3; 2; 4]]} : Heap.t) !! 1%positive = Some [1; 3; 2; 4])
    by reflexivity.
  split; [exact H|].
  destruct (call_leaves_heap_unchanged _ _ _ H) as (r & _ & Hcall & _).
  exists r. exact Hcall.
Defined.

(** C10 (the code departs from the claim).  With the default chunk size 50000
    the input [0, 1024, 1, ..., 1023] is handed whole to
    [calculate_positive_differences_memory_optimized], and with chunk size 1025
    the input [0, 1024, 1, ..., 1023, 0] is cut in two chunks; in both cases
    [calculate_positive_differences_chunked] returns 178956800 and the
    reference double loop returns 178957824. *)
Theorem chunked_differs_from_naive :
  memory_optimized_solution.calculate_positive_differences_chunked bug_input 50000
  = Some 178956800 ∧
  calculate_positive_differences_naive bug_input = Some 178957824 ∧
  memory_optimized_solution.calculate_positive_differences_chunked (bug_input ++ [0]) 1025
  = Some 178956800 ∧
  calculate_positive_differences_naive (bug_input ++ [0]) = Some 178957824.
Proof.
  split_and!.
  - vm_compute. reflexivity.
  - rewrite naive_correct, bug_input_answer. reflexivity.
  - vm_compute. reflexivity.
  - rewrite naive_correct, positive_difference_sum_snoc, bug_input_answer.
    vm_compute. reflexivity.
Qed.

(** * Further properties of the sources *)

(** ** Loops over ranges *)

Section loops.

(** A [for j in range(lo, hi)] loop whose body keeps an invariant indexed by
    the position runs to the end and establishes the invariant at [hi]. *)
Lemma for_in_range_inv {St} (I : Z → St → Prop) (body : St → Z → option St) lo hi :
  lo <= hi →
  (∀ st j, lo <= j < hi → I j st → ∃ st', body st j = Some st' ∧ I (j + 1) st') →
  ∀ st, I lo st →
  ∃ st', Py.for_in body st (Py.range lo hi) = Some st' ∧ I hi st'.
Proof.
  intros Hle Hbody st Hst.
  assert (Hm : ∀ m : nat, lo + Z.of_nat m <= hi →
    ∃ st', Py.for_in body st (Py.range lo (lo + Z.of_nat m)) = Some st' ∧
           I (lo + Z.of_nat m) st').
  { induction m as [|m IH]; intros Hm.
    - rewrite range_nil by lia. exists st. split; [reflexivity|].
      replace (lo + Z.of_nat 0) with lo by lia. exact Hst.
    - destruct IH as (st1 & Hrun & Hst1); [lia|].
      destruct (Hbody st1 (lo + Z.of_nat m) ltac:(lia) Hst1) as (st2 & Hstep & Hst2).
      exists st2. replace (lo + Z.of_nat (S m)) with (lo + Z.of_nat m + 1) by lia.
      rewrite range_snoc by lia. rewrite for_in_app, Hrun. cbn. rewrite Hstep.
      split; [reflexivity|exact Hst2]. }
  specialize (Hm (Z.to_nat (hi - lo)) ltac:(lia)).
  replace (lo + Z.of_nat (Z.to_nat (hi - lo))) with hi in Hm by lia. exact Hm.
Qed.

(** The starts of the batches of [range(0, n, bs)], from a start on. *)
Lemma for_in_batches_from {St} (I : Z → St → Prop) (batch : St → Z → option St) n bs :
  0 < bs →
  (∀ st start, 0 <= start < n → I start st →
     ∃ st', batch st start = Some st' ∧ I (Z.min (start + bs) n) st') →
  ∀ (c : nat) start st,
  0 <= start <= n → c = Z.to_nat ((n - start + bs - 1) `div` bs) → I start st →
  ∃ st', Py.for_in batch st ((λ i : nat, start + Z.of_nat i * bs) <$> seq 0 c) = Some st' ∧
         I n st'.
Proof.
  intros Hbs Hbatch c. induction c as [|c IH]; intros start st Hstart Hc Hst.
  - exists st. split; [reflexivity|].
    assert (n <= start) as Hge.
    { destruct (decide (n <= start)) as [|Hlt]; [assumption|exfalso].
      assert (1 <= (n - start + bs - 1) `div` bs)
        by (apply Z.div_le_lower_bound; lia). lia. }
    replace n with start by lia. exact Hst.
  - assert (start < n) as Hlt.
    { destruct (decide (start < n)) as [|Hge]; [assumption|exfalso].
      assert ((n - start + bs - 1) `div` bs <= 0); [|lia].
      destruct (decide (n - start + bs - 1 < 0)) as [Hneg|Hnn].
      - pose proof (Z.div_lt_upper_bound (n - start + bs - 1) bs 0 Hbs ltac:(lia)). lia.
      - rewrite Z.div_small by lia. lia. }
    cbn [seq fmap list_fmap Py.for_in].
    replace (start + Z.of_nat 0 * bs) with start by lia.
    destruct (Hbatch st start ltac:(lia) Hst) as (st1 & Hrun & Hst1).
    rewrite Hrun. cbn [mbind option_bind].
    rewrite <- fmap_S_seq, <- list_fmap_compose.
    assert (Hdiv : (n - start + bs - 1) `div` bs = (n - (start + bs) + bs - 1) `div` bs + 1).
    { replace (n - start + bs - 1) with (n - (start + bs) + bs - 1 + 1 * bs) by lia.
      apply Z.div_add. lia. }
    destruct (decide (start + bs <= n)) as [Hin|Hout].
    + rewrite Z.min_l in Hst1 by lia.
      destruct (IH (start + bs) st1 ltac:(lia)) as (st2 & Hrest & Hst2).
      { assert (0 <= (n - (start + bs) + bs - 1) `div` bs)
          by (apply Z.div_pos; lia). lia. }
      { exact Hst1. }
      exists st2. split; [|exact Hst2]. rewrite <- Hrest.
      f_equal. apply list_fmap_ext. intros _ i _. cbn. lia.
    + rewrite Z.min_r in Hst1 by lia.
      assert (c = 0%nat) as ->.
      { assert ((n - (start + bs) + bs - 1) `div` bs = 0)
          by (apply Z.div_small; lia). lia. }
      exists st1. split; [reflexivity|exact Hst1].
Qed.

(** A loop over the batches of [range(0, n, bs)] whose batches keep an
    invariant indexed by the position reaches position [n]. *)
Lemma for_in_batches {St} (I : Z → St → Prop) (batch : St → Z → option St) n bs :
  0 < bs → 0 <= n →
  (∀ st start, 0 <= start < n → I start st →
     ∃ st', batch st start = Some st' ∧ I (Z.min (start + bs) n) st') →
  ∀ st, I 0 st →
  ∃ starts st', Py.range_step 0 n bs = Some starts ∧
                Py.for_in batch st starts = Some st' ∧ I n st'.
Proof.
  intros Hbs Hn Hbatch st Hst. unfold Py.range_step.
  rewrite bool_decide_eq_false_2 by lia. rewrite bool_decide_eq_true_2 by lia.
  destruct (for_in_batches_from I batch n bs Hbs Hbatch
              (Z.to_nat ((n - 0 + bs - 1) `div` bs)) 0 st) as (st' & Hrun & Hst');
    [lia|reflexivity|exact Hst|].
  eauto.
Qed.

End loops.

(** ** The double loop taken by the later index *)

Section by_later_index.

Lemma gain_over_app x l1 l2 : gain_over x (l1 ++ l2) = gain_over x l1 + gain_over x l2.
Proof. induction l1 as [|y l1 IH]; cbn; lia. Qed.

Lemma len_take_le {A} (l : list A) (j : Z) :
  0 <= j <= Py.len l → Py.len (take (Z.to_nat j) l) = j.
Proof. unfold Py.len. intros Hj. rewrite length_take. lia. Qed.

(** The inner loop over the earlier indices adds the gains of [arr[j]] over
    the elements before it. *)
Lemma earlier_loop (arr : list Z) (step : Z → Z → Z → option Z) (j : nat) x acc :
  arr !! j = Some x →
  (∀ total_sum (i : nat) ai, arr !! i = Some ai → (i < j)%nat →
     step total_sum (Z.of_nat i) x = Some (total_sum + gain x ai)) →
  Py.for_in (λ total_sum i, step total_sum i x) acc (Py.range 0 (Z.of_nat j))
  = Some (acc + gain_over x (take j arr)).
Proof.
  intros Hj Hstep.
  destruct (for_in_range_inv
    (λ i total_sum, total_sum = acc + gain_over x (take (Z.to_nat i) arr))
    (λ total_sum i, step total_sum i x) 0 (Z.of_nat j)) with (st := acc)
    as (total & Hrun & Htotal).
  - lia.
  - intros total i Hi ->.
    destruct (lookup_lt_is_Some_2 arr (Z.to_nat i)) as [ai Hai].
    { apply lookup_lt_Some in Hj. lia. }
    exists (acc + gain_over x (take (Z.to_nat i) arr) + gain x ai). split.
    + pose proof (Hstep (acc + gain_over x (take (Z.to_nat i) arr))
                    (Z.to_nat i) ai Hai ltac:(lia)) as Hrun.
      rewrite Z2Nat.id in Hrun by lia. exact Hrun.
    + replace (Z.to_nat (i + 1)) with (S (Z.to_nat i)) by lia.
      rewrite (take_S_r _ _ _ Hai), gain_over_app. cbn. lia.
  - change (Z.to_nat 0) with 0%nat. rewrite take_0. cbn. lia.
  - rewrite Hrun, Htotal, Nat2Z.id. reflexivity.
Qed.

(** The outer loop over the later index, for any inner step that adds the
    gain of the pair. *)
Lemma later_loop (arr : list Z) (inner : Z → Z → option Z) :
  (∀ total_sum (j : nat) x, arr !! j = Some x →
     inner total_sum (Z.of_nat j) = Some (total_sum + gain_over x (take j arr))) →
  Py.for_in inner 0 (Py.range 1 (Py.len arr)) = Some (positive_difference_sum arr).
Proof.
  intros Hinner. destruct arr as [|a0 arr]; [reflexivity|].
  destruct (for_in_range_inv
    (λ j total_sum, total_sum = positive_difference_sum (take (Z.to_nat j) (a0 :: arr)))
    inner 1 (Py.len (a0 :: arr))) with (st := 0) as (total & Hrun & Htotal).
  - unfold Py.len. cbn [length]. lia.
  - intros total j Hj ->.
    destruct (lookup_lt_is_Some_2 (a0 :: arr) (Z.to_nat j)) as [x Hx].
    { unfold Py.len in Hj. lia. }
    eexists. split.
    + pose proof (Hinner (positive_difference_sum (take (Z.to_nat j) (a0 :: arr)))
                    (Z.to_nat j) x Hx) as Hrun.
      rewrite Z2Nat.id in Hrun by lia. exact Hrun.
    + replace (Z.to_nat (j + 1)) with (S (Z.to_nat j)) by lia.
      rewrite (take_S_r _ _ _ Hx), positive_difference_sum_snoc. reflexivity.
  - change (Z.to_nat 1) with 1%nat. rewrite firstn_cons, take_0. reflexivity.
  - rewrite Hrun, Htotal. unfold Py.len. rewrite Nat2Z.id, firstn_all. reflexivity.
Qed.

Lemma sum_optimized_correct arr :
  sum_positive_differences.calculate_positive_differences_sum_optimized arr
  = Some (positive_difference_sum arr).
Proof.
  unfold sum_positive_differences.calculate_positive_differences_sum_optimized.
  cbv zeta. apply later_loop. intros total_sum j x Hj.
  pose (step := λ total_sum i _ : Z,
       aj ← Py.getitem arr (Z.of_nat j);
       ai ← Py.getitem arr i;
       Some (if bool_decide (aj - ai > 0) then total_sum + (aj - ai) else total_sum)).
  apply (earlier_loop arr step); [exact Hj|]. unfold step.
  intros total i ai Hi Hlt.
  rewrite !getitem_lookup by (eapply lookup_lt_Some; eauto).
  rewrite Hj, Hi. cbn. f_equal. unfold gain. case_bool_decide; lia.
Qed.

Lemma simple_optimized_correct arr :
  optimized_sum_algorithm.calculate_positive_differences_sum_simple_optimized arr
  = Some (positive_difference_sum arr).
Proof.
  unfold optimized_sum_algorithm.calculate_positive_differences_sum_simple_optimized.
  cbv zeta. apply later_loop. intros total_sum j x Hj.
  rewrite getitem_lookup by (eapply lookup_lt_Some; eauto).
  rewrite Hj. cbn [mbind option_bind].
  pose (step := λ total_sum i current : Z,
       ai ← Py.getitem arr i;
       Some (if bool_decide (current > ai) then total_sum + (current - ai)
             else total_sum)).
  apply (earlier_loop arr step); [exact Hj|]. unfold step.
  intros total i ai Hi Hlt.
  rewrite getitem_lookup by (eapply lookup_lt_Some; eauto).
  rewrite Hi. cbn. f_equal. unfold gain. repeat case_bool_decide; lia.
Qed.

Lemma sum_naive_correct arr :
  sum_positive_differences.calculate_positive_differences_sum_naive arr
  = Some (positive_difference_sum arr).
Proof. exact (naive_correct arr). Qed.

End by_later_index.

(** ** simple_memory_optimized.py: the list-backed closures *)

Section simple_memory_optimized_facts.

(** [update_tree] is [FenwickTree.update] on the two lists. *)
Lemma update_tree_loop_dense k val :
  ∀ fuel trees idx,
  simple_memory_optimized.update_tree_loop fuel k trees idx val
  = ft ← FenwickTree.update_loop fuel (FenwickTree.mk k trees.1 trees.2) idx val;
    Some (FenwickTree.count_tree ft, FenwickTree.sum_tree ft).
Proof.
  intros fuel. induction fuel as [|fuel IH]; intros [ct st] idx;
    cbn [simple_memory_optimized.update_tree_loop FenwickTree.update_loop
         FenwickTree.size FenwickTree.count_tree FenwickTree.sum_tree fst snd];
    case_bool_decide; try reflexivity.
  destruct (Py.getitem ct idx) as [c|]; [|reflexivity]. cbn [mbind option_bind].
  destruct (Py.setitem ct idx (c + 1)) as [ct'|]; [|reflexivity]. cbn [mbind option_bind].
  destruct (Py.getitem st idx) as [s|]; [|reflexivity]. cbn [mbind option_bind].
  destruct (Py.setitem st idx (s + val)) as [st'|]; [|reflexivity]. cbn [mbind option_bind].
  apply IH.
Qed.

(** [query_tree] returns what [query_count] and [query_sum] return. *)
Lemma query_tree_loop_dense :
  ∀ fuel trees idx count sum_val,
  simple_memory_optimized.query_tree_loop fuel trees idx count sum_val
  = c ← FenwickTree.query_loop fuel trees.1 idx count;
    s ← FenwickTree.query_loop fuel trees.2 idx sum_val;
    Some (c, s).
Proof.
  intros fuel. induction fuel as [|fuel IH]; intros [ct st] idx count sum_val;
    cbn [simple_memory_optimized.query_tree_loop FenwickTree.query_loop fst snd];
    case_bool_decide; try reflexivity.
  destruct (Py.getitem ct idx) as [c|]; [|reflexivity]. cbn [mbind option_bind].
  destruct (Py.getitem st idx) as [s|]; cbn [mbind option_bind].
  - apply IH.
  - destruct (FenwickTree.query_loop fuel ct _ _); reflexivity.
Qed.

Lemma simple_pass_body_dense arr value_to_rank k ct st total_sum j :
  simple_memory_optimized.pass_body arr value_to_rank k ((ct, st), total_sum) j
  = res ← pass_body arr value_to_rank (FenwickTree.mk k ct st, total_sum) j;
    Some ((FenwickTree.count_tree res.1, FenwickTree.sum_tree res.1), res.2).
Proof.
  unfold simple_memory_optimized.pass_body, pass_body.
  destruct (Py.getitem arr j) as [x|]; [|reflexivity]. cbn [mbind option_bind].
  destruct (value_to_rank !! x) as [r|]; [|reflexivity]. cbn [mbind option_bind].
  unfold simple_memory_optimized.update_tree, FenwickTree.update.
  cbn [FenwickTree.size].
  assert (Hupd : ∀ t : Z,
    (trees ← simple_memory_optimized.update_tree_loop (Z.to_nat (k - r + 1)) k (ct, st) r x;
     Some (trees, t))
    = res ← (ft' ← FenwickTree.update_loop (Z.to_nat (k - r + 1)) (FenwickTree.mk k ct st) r x;
             Some (ft', t));
      Some ((FenwickTree.count_tree res.1, FenwickTree.sum_tree res.1), res.2)).
  { intros t. rewrite update_tree_loop_dense. cbn [fst snd].
    destruct (FenwickTree.update_loop _ _ _ _); reflexivity. }
  case_bool_decide; [|apply Hupd].
  unfold simple_memory_optimized.query_tree, contribution,
    FenwickTree.query_count, FenwickTree.query_sum.
  rewrite query_tree_loop_dense.
  cbn [fst snd FenwickTree.count_tree FenwickTree.sum_tree].
  destruct (FenwickTree.query_loop _ ct _ _) as [c|]; [|reflexivity]. cbn [mbind option_bind].
  destruct (FenwickTree.query_loop _ st _ _) as [s|]; [|reflexivity]. cbn [mbind option_bind].
  apply Hupd.
Qed.

(** The dictionary has one key per distinct value. *)
Lemma size_value_to_rank_of l :
  NoDup l → Z.of_nat (size (value_to_rank_of l)) = Py.len l.
Proof.
  unfold Py.len. induction l as [|x l IH] using rev_ind; intros Hnd; [reflexivity|].
  apply NoDup_app in Hnd as (Hndl & Hdisj & _).
  rewrite value_to_rank_of_snoc, map_size_insert_None, length_app.
  - specialize (IH Hndl). cbn. lia.
  - destruct (value_to_rank_of l !! x) as [r|] eqn:Hr; [exfalso|reflexivity].
    apply (value_to_rank_of_lookup l Hndl) in Hr as (i & _ & Hi).
    apply (Hdisj x); [eapply list_elem_of_lookup_2; eauto|].
    apply list_elem_of_singleton. reflexivity.
Qed.

(** The set built by the loop of [add] calls is [set(arr)]. *)
Lemma set_by_adding (arr : list Z) :
  foldl (λ (s : gset Z) val, s ∪ {[val]}) ∅ arr = Py.set arr.
Proof.
  unfold Py.set.
  enough (H : ∀ s : gset Z,
    foldl (λ (s : gset Z) val, s ∪ {[val]}) s arr = s ∪ list_to_set arr)
    by (rewrite H; apply (left_id_L ∅ (∪))).
  induction arr as [|x arr IH]; intros s; cbn.
  - symmetry. apply (right_id_L ∅ (∪)).
  - rewrite IH. symmetry. apply (assoc_L (∪)).
Qed.

Variable arr : list Z.

(** One iteration over the lists of a tree that holds the first [j]
    elements. *)
Lemma simple_pass_body_spec (j : nat) x ft total_sum :
  arr !! j = Some x →
  tree_inv (rank_count arr) ft (inserted (rank_of arr) (take j arr)) →
  ∃ ft',
    simple_memory_optimized.pass_body arr (rank_of arr) (rank_count arr)
      ((FenwickTree.count_tree ft, FenwickTree.sum_tree ft), total_sum) (Z.of_nat j)
    = Some ((FenwickTree.count_tree ft', FenwickTree.sum_tree ft'),
            total_sum + gain_over x (take j arr)) ∧
    tree_inv (rank_count arr) ft' (inserted (rank_of arr) (take (S j) arr)).
Proof.
  intros Hj Hinv.
  destruct (pass_body_spec arr j x ft total_sum Hj Hinv)
    as (r & ft' & _ & _ & _ & _ & Hbody & Hinv').
  exists ft'. split; [|exact Hinv'].
  rewrite simple_pass_body_dense.
  destruct Hinv as (Hsize & _). destruct ft as [k ct st]. cbn in Hsize. subst k.
  cbn [FenwickTree.count_tree FenwickTree.sum_tree].
  rewrite Hbody. reflexivity.
Qed.

Lemma simple_pass_step st j :
  0 <= j < Py.len arr → simple_pass_inv arr j st →
  ∃ st', simple_memory_optimized.pass_body arr (rank_of arr) (rank_count arr) st j = Some st' ∧
         simple_pass_inv arr (j + 1) st'.
Proof.
  intros Hj (_ & ft & Hinv & ->).
  destruct (lookup_lt_is_Some_2 arr (Z.to_nat j)) as [x Hx]; [unfold Py.len in Hj; lia|].
  destruct (simple_pass_body_spec (Z.to_nat j) x ft
              (positive_difference_sum (take (Z.to_nat j) arr)) Hx Hinv)
    as (ft' & Hbody & Hinv').
  rewrite Z2Nat.id in Hbody by lia.
  eexists. split; [exact Hbody|]. split; [lia|].
  exists ft'. replace (Z.to_nat (j + 1)) with (S (Z.to_nat j)) by lia.
  split; [exact Hinv'|].
  rewrite (take_S_r _ _ _ Hx), positive_difference_sum_snoc. reflexivity.
Qed.

Lemma simple_pass_start :
  simple_pass_inv arr 0 ((replicate (Z.to_nat (rank_count arr + 1)) 0,
               replicate (Z.to_nat (rank_count arr + 1)) 0), 0).
Proof.
  split; [pose proof (len_nonneg arr); lia|].
  exists (FenwickTree.init (rank_count arr)). split; [|reflexivity].
  change (Z.to_nat 0) with 0%nat. rewrite take_0. apply init_spec, len_nonneg.
Qed.

Lemma simple_pass_end st :
  simple_pass_inv arr (Py.len arr) st → st.2 = positive_difference_sum arr.
Proof.
  intros (_ & ft & _ & ->). unfold Py.len. rewrite Nat2Z.id, firstn_all. reflexivity.
Qed.

End simple_memory_optimized_facts.

(** [calculate_positive_differences_memory_optimized] of
    [simple_memory_optimized.py] returns the sum over all pairs. *)
Lemma simple_memory_optimized_correct arr :
  simple_memory_optimized.calculate_positive_differences_memory_optimized arr
  = Some (positive_difference_sum arr).
Proof.
  unfold simple_memory_optimized.calculate_positive_differences_memory_optimized.
  cbv zeta. case_bool_decide as Hn.
  - destruct arr as [|x [|y arr]]; [reflexivity|cbn; f_equal; lia|].
    unfold Py.len in Hn. cbn in Hn. lia.
  - rewrite size_value_to_rank_of by apply sorted_NoDup.
    change (Py.len (Py.sorted (Py.set arr))) with (rank_count arr).
    change (value_to_rank_of (Py.sorted (Py.set arr))) with (rank_of arr).
    destruct (for_in_batches (simple_pass_inv arr)
      (λ st batch_start,
         Py.for_in (simple_memory_optimized.pass_body arr (rank_of arr) (rank_count arr)) st
           (Py.range batch_start (Z.min (batch_start + 10000) (Py.len arr))))
      (Py.len arr) 10000 ltac:(lia) (len_nonneg arr))
      with (st := ((replicate (Z.to_nat (rank_count arr + 1)) 0,
                    replicate (Z.to_nat (rank_count arr + 1)) 0), 0))
      as (starts & st & -> & Hrun & Hst).
    + intros st start Hstart Hst.
      apply (for_in_range_inv (simple_pass_inv arr)); [lia| |exact Hst].
      intros st1 j Hj. apply simple_pass_step. lia.
    + apply simple_pass_start.
    + cbn [mbind option_bind]. rewrite Hrun. cbn [mbind option_bind].
      f_equal. apply simple_pass_end. exact Hst.
Qed.

(** [calculate_positive_differences_streaming] returns the sum over all
    pairs. *)
Lemma streaming_correct arr :
  simple_memory_optimized.calculate_positive_differences_streaming arr
  = Some (positive_difference_sum arr).
Proof.
  unfold simple_memory_optimized.calculate_positive_differences_streaming.
  cbv zeta. case_bool_decide as Hn.
  - destruct arr as [|x [|y arr]]; [reflexivity|cbn; f_equal; lia|].
    unfold Py.len in Hn. cbn in Hn. lia.
  - rewrite set_by_adding.
    change (Py.len (Py.sorted (Py.set arr))) with (rank_count arr).
    change (value_to_rank_of (Py.sorted (Py.set arr))) with (rank_of arr).
    destruct (for_in_range_inv (simple_pass_inv arr)
      (simple_memory_optimized.pass_body arr (rank_of arr) (rank_count arr))
      0 (Py.len arr) (len_nonneg arr))
      with (st := ((replicate (Z.to_nat (rank_count arr + 1)) 0,
                    replicate (Z.to_nat (rank_count arr + 1)) 0), 0))
      as (st & Hrun & Hst).
    + intros st1 j Hj. apply simple_pass_step. lia.
    + apply simple_pass_start.
    + rewrite Hrun. cbn [mbind option_bind]. f_equal. apply simple_pass_end. exact Hst.
Qed.

(** ** The dictionary-backed tree up to cell 1023 *)

Section compact.

Lemma lowbit_below_pow (n : nat) :
  ∀ i, 0 < i < 2 ^ (Z.of_nat n + 1) → Py.lowbit i <= 2 ^ Z.of_nat n.
Proof.
  induction n as [|n IH]; intros i Hi.
  - assert (i = 1) as -> by (change (2 ^ (Z.of_nat 0 + 1)) with 2 in Hi; lia).
    vm_compute. discriminate.
  - replace (2 ^ (Z.of_nat (S n) + 1)) with (2 * 2 ^ (Z.of_nat n + 1)) in Hi
      by (rewrite <- Z.pow_succ_r by lia; f_equal; lia).
    replace (2 ^ Z.of_nat (S n)) with (2 * 2 ^ Z.of_nat n)
      by (rewrite <- Z.pow_succ_r by lia; f_equal; lia).
    destruct (Z.Even_or_Odd i) as [[x ->]|[x ->]].
    + rewrite lowbit_even. specialize (IH x ltac:(lia)). lia.
    + rewrite lowbit_odd. pose proof (Z.pow_pos_nonneg 2 (Z.of_nat n)). lia.
Qed.

(** Up to cell 1023 a block is at most 512 wide. *)
Lemma lowbit_small i : 1 <= i <= 1023 → Py.lowbit i <= 512.
Proof. intros Hi. apply (lowbit_below_pow 9 i). change (2 ^ (Z.of_nat 9 + 1)) with 1024. lia. Qed.

(** Reading a [defaultdict] returns the cell and changes no cell. *)
Lemma dd_getitem_cell tree k :
  (CompactFenwickTree.dd_getitem tree k).1 = cell tree k ∧
  ∀ i, cell (CompactFenwickTree.dd_getitem tree k).2 i = cell tree i.
Proof.
  unfold CompactFenwickTree.dd_getitem, cell.
  destruct (tree !! k) as [v|] eqn:Hk; cbn; [split; [reflexivity|]; intros i; reflexivity|].
  split; [reflexivity|]. intros i. destruct (decide (i = k)) as [->|Hne].
  - rewrite lookup_insert_eq, Hk. reflexivity.
  - rewrite lookup_insert_ne by congruence. reflexivity.
Qed.

(** [d[k] += x] adds [x] to cell [k] and changes no other cell. *)
Lemma dd_add_cell tree k x i :
  cell (CompactFenwickTree.dd_add tree k x) i
  = if decide (i = k) then cell tree k + x else cell tree i.
Proof.
  unfold CompactFenwickTree.dd_add.
  pose proof (dd_getitem_cell tree k) as [Hv Hcells].
  destruct (CompactFenwickTree.dd_getitem tree k) as [v tree']. cbn in Hv, Hcells.
  subst v. case_decide as Hi.
  - subst i. unfold cell at 1. rewrite lookup_insert_eq. reflexivity.
  - unfold cell at 1. rewrite lookup_insert_ne by congruence. apply Hcells.
Qed.

(** A prefix query up to 1023 returns the weight of the prefix, and the
    dictionary it leaves reads as before. *)
Lemma compact_query_loop_spec w ins :
  ∀ fuel tree q acc,
  compact_represents w tree ins →
  0 <= q <= 1023 → (Z.to_nat q <= fuel)%nat →
  ∃ tree', CompactFenwickTree.query_loop fuel tree q acc
           = Some (acc + weight_in w 0 q ins, tree') ∧
           ∀ i, cell tree' i = cell tree i.
Proof.
  intros fuel. induction fuel as [|fuel IH]; intros tree q acc Hrep Hq Hfuel.
  - assert (q = 0) as -> by lia. exists tree. split; [|reflexivity].
    cbn. rewrite weight_in_empty by lia. do 2 f_equal. lia.
  - cbn [CompactFenwickTree.query_loop]. case_bool_decide as Hpos.
    + pose proof (lowbit_bounds q ltac:(lia)) as Hlb.
      pose proof (dd_getitem_cell tree q) as [Hv Hcells].
      destruct (CompactFenwickTree.dd_getitem tree q) as [c tree1]. cbn in Hv, Hcells.
      destruct (IH tree1 (q - Py.lowbit q) (acc + c)) as (tree' & Hrun & Hcells');
        [|lia|lia|].
      { intros i Hi. rewrite Hcells. apply Hrep, Hi. }
      exists tree'. split.
      * rewrite Hrun. do 2 f_equal. subst c. rewrite (Hrep q) by lia.
        rewrite (weight_in_split w 0 (q - Py.lowbit q) q) by lia. lia.
      * intros i. rewrite Hcells'. apply Hcells.
    + assert (q = 0) as -> by lia. exists tree. split; [|reflexivity].
      rewrite weight_in_empty by lia. do 2 f_equal. lia.
Qed.

Lemma compact_updating_start w tree ins p val :
  compact_represents w tree ins → compact_updating w tree ins p val p.
Proof.
  intros H i Hi. rewrite (H i Hi), bool_decide_eq_false_2 by lia. lia.
Qed.

(** When the walk has passed [p + 512], every cell up to 1023 whose block
    contains [p] has been visited. *)
Lemma compact_updating_end w tree ins p val idx :
  compact_updating w tree ins p val idx → p + 512 <= idx →
  compact_represents w tree (ins ++ [(p, val)]).
Proof.
  intros H Hidx i Hi. rewrite (H i Hi), weight_in_app. cbn.
  pose proof (lowbit_small i Hi). repeat case_bool_decide; lia.
Qed.

Lemma compact_updating_step w tree ins p val idx :
  compact_updating w tree ins p val idx →
  1 <= p <= idx → idx - Py.lowbit idx < p →
  compact_updating w (CompactFenwickTree.dd_add tree idx (w val)) ins p val
    (idx + Py.lowbit idx).
Proof.
  intros H Hp Hblock i Hi.
  pose proof (lowbit_bounds idx ltac:(lia)) as Hlb.
  rewrite dd_add_cell. case_decide as Hidx.
  - subst i. rewrite (H idx Hi).
    rewrite bool_decide_eq_false_2 by lia.
    rewrite bool_decide_eq_true_2 by lia. lia.
  - rewrite (H i Hi). f_equal.
    rewrite (bool_decide_ext (i < idx ∧ i - Py.lowbit i < p <= i)
      (i < idx + Py.lowbit idx ∧ i - Py.lowbit i < p <= i)); [reflexivity|].
    split; [lia|].
    intros [Hlt Hin]. split; [|exact Hin].
    destruct (decide (i < idx)) as [|Hge]; [assumption|exfalso].
    pose proof (lowbit_inside i idx ltac:(lia) ltac:(lia)). lia.
Qed.

Lemma compact_update_loop_spec ins p val :
  ∀ fuel ft idx,
  compact_updating count_weight (CompactFenwickTree.count_tree ft) ins p val idx →
  compact_updating sum_weight (CompactFenwickTree.sum_tree ft) ins p val idx →
  1 <= p <= idx → idx - Py.lowbit idx < p →
  p <= CompactFenwickTree.max_idx ft →
  (Z.to_nat (CompactFenwickTree.max_idx ft + 1000 + 1 - idx) <= fuel)%nat →
  ∃ ft', CompactFenwickTree.update_loop fuel ft idx val = Some ft' ∧
         compact_inv ft' (ins ++ [(p, val)]).
Proof.
  intros fuel. induction fuel as [|fuel IH];
    intros ft idx Hcount Hsum Hp Hblock Hmax Hfuel.
  - cbn. rewrite bool_decide_eq_false_2 by lia.
    eexists; split; [reflexivity|].
    split; eapply compact_updating_end; eauto; lia.
  - cbn [CompactFenwickTree.update_loop]. case_bool_decide as Hle.
    + pose proof (lowbit_bounds idx ltac:(lia)) as Hlb.
      apply IH; cbn [CompactFenwickTree.count_tree CompactFenwickTree.sum_tree
                     CompactFenwickTree.max_idx].
      * apply (compact_updating_step count_weight); [assumption|lia|lia].
      * apply (compact_updating_step sum_weight); [assumption|lia|lia].
      * lia.
      * apply next_block_contains; lia.
      * lia.
      * lia.
    + eexists; split; [reflexivity|].
      split; eapply compact_updating_end; eauto; lia.
Qed.

(** [update] at a rank from 1 on records one more pair. *)
Lemma compact_update_spec ft ins p val :
  compact_inv ft ins → 1 <= p →
  ∃ ft', CompactFenwickTree.update ft p val = Some ft' ∧
         compact_inv ft' (ins ++ [(p, val)]).
Proof.
  intros (Hcount & Hsum) Hp. unfold CompactFenwickTree.update. cbv zeta.
  pose proof (lowbit_bounds p ltac:(lia)).
  apply compact_update_loop_spec;
    cbn [CompactFenwickTree.count_tree CompactFenwickTree.sum_tree
         CompactFenwickTree.max_idx];
    try (apply compact_updating_start; assumption); lia.
Qed.

Lemma compact_query_count_spec ft ins q :
  compact_inv ft ins → 0 <= q <= 1023 →
  ∃ ft', CompactFenwickTree.query_count ft q
         = Some (weight_in count_weight 0 q ins, ft') ∧
         compact_inv ft' ins.
Proof.
  intros (Hcount & Hsum) Hq. unfold CompactFenwickTree.query_count.
  destruct (compact_query_loop_spec count_weight ins (Z.to_nat q)
              (CompactFenwickTree.count_tree ft) q 0 Hcount Hq ltac:(lia))
    as (tree' & -> & Hcells).
  cbn. eexists. split; [reflexivity|]. split; cbn; [|exact Hsum].
  intros i Hi. rewrite Hcells. apply Hcount, Hi.
Qed.

Lemma compact_query_sum_spec ft ins q :
  compact_inv ft ins → 0 <= q <= 1023 →
  ∃ ft', CompactFenwickTree.query_sum ft q
         = Some (weight_in sum_weight 0 q ins, ft') ∧
         compact_inv ft' ins.
Proof.
  intros (Hcount & Hsum) Hq. unfold CompactFenwickTree.query_sum.
  destruct (compact_query_loop_spec sum_weight ins (Z.to_nat q)
              (CompactFenwickTree.sum_tree ft) q 0 Hsum Hq ltac:(lia))
    as (tree' & -> & Hcells).
  cbn. eexists. split; [reflexivity|]. split; cbn; [exact Hcount|].
  intros i Hi. rewrite Hcells. apply Hsum, Hi.
Qed.

(** Dropping the zero entries changes no cell. *)
Lemma clear_unused_cell (tree : gmap Z Z) i :
  cell (filter (λ kv : Z * Z, kv.2 ≠ 0) tree) i = cell tree i.
Proof.
  unfold cell. rewrite map_lookup_filter.
  destruct (tree !! i) as [v|]; [|reflexivity]. cbn.
  case_guard as Hv; cbn in *; [reflexivity|].
  destruct (decide (v = 0)); [congruence|contradiction].
Qed.

Lemma clear_unused_inv ft ins :
  compact_inv ft ins → compact_inv (CompactFenwickTree.clear_unused ft) ins.
Proof.
  intros (Hcount & Hsum). split; intros i Hi; cbn; rewrite clear_unused_cell;
    [apply Hcount|apply Hsum]; exact Hi.
Qed.

Lemma compact_init_inv : compact_inv CompactFenwickTree.init [].
Proof. split; intros i Hi; reflexivity. Qed.

End compact.

(** ** [calculate_positive_differences_memory_optimized] on at most 1024
    distinct values *)

Section memory_optimized.

Lemma get_unique_values_streaming_spec arr :
  memory_optimized_solution.get_unique_values_streaming arr
  = (rank_of arr, rank_count arr).
Proof.
  unfold memory_optimized_solution.get_unique_values_streaming. cbv zeta.
  rewrite set_by_adding. f_equal. apply size_value_to_rank_of, sorted_NoDup.
Qed.

Variable arr : list Z.
Hypothesis Hdistinct : rank_count arr <= 1024.

(** One iteration: every query is at a rank below 1024, where the
    dictionary-backed tree is exact. *)
Lemma batch_body_spec (j : nat) x ft total_sum :
  arr !! j = Some x →
  compact_inv ft (inserted (rank_of arr) (take j arr)) →
  ∃ ft',
    memory_optimized_solution.batch_body arr (rank_of arr) (ft, total_sum) (Z.of_nat j)
    = Some (ft', total_sum + gain_over x (take j arr)) ∧
    compact_inv ft' (inserted (rank_of arr) (take (S j) arr)).
Proof.
  intros Hj Hinv.
  assert (Hxin : x ∈ arr) by (eapply list_elem_of_lookup_2; eauto).
  destruct (rank_defined arr x Hxin) as [r Hr].
  pose proof (rank_bounds arr x r Hr) as Hrk.
  assert (Hpre : ∀ y, y ∈ take j arr → y ∈ arr)
    by (intros y Hy; eapply subseteq_take; eauto).
  pose proof (smaller_weights arr x r (take j arr) Hr Hpre) as Hw.
  assert (Hins : inserted (rank_of arr) (take (S j) arr)
                 = inserted (rank_of arr) (take j arr) ++ [(r, x)]).
  { rewrite (take_S_r _ _ _ Hj). unfold inserted. rewrite fmap_app. cbn.
    rewrite Hr. reflexivity. }
  unfold memory_optimized_solution.batch_body.
  rewrite getitem_lookup by (eapply lookup_lt_Some; eauto).
  rewrite Hj. cbn [mbind option_bind]. rewrite Hr. cbn [mbind option_bind].
  case_bool_decide as Hgt.
  - destruct (compact_query_count_spec ft _ (r - 1) Hinv ltac:(lia))
      as (ft1 & -> & Hinv1). cbn [mbind option_bind].
    destruct (compact_query_sum_spec ft1 _ (r - 1) Hinv1 ltac:(lia))
      as (ft2 & -> & Hinv2). cbn [mbind option_bind].
    destruct (compact_update_spec ft2 _ r x Hinv2 ltac:(lia)) as (ft' & -> & Hinv').
    cbn [mbind option_bind]. exists ft'. rewrite Hins, Hw. split; [reflexivity|exact Hinv'].
  - cbn [mbind option_bind].
    destruct (compact_update_spec ft _ r x Hinv ltac:(lia)) as (ft' & -> & Hinv').
    cbn [mbind option_bind]. exists ft'. rewrite Hins. split; [|exact Hinv'].
    rewrite <- Hw, !weight_in_empty by lia. do 2 f_equal. lia.
Qed.

Lemma compact_pass_step st j :
  0 <= j < Py.len arr → compact_pass_inv arr j st →
  ∃ st', memory_optimized_solution.batch_body arr (rank_of arr) st j = Some st' ∧
         compact_pass_inv arr (j + 1) st'.
Proof.
  intros Hj (_ & ft & Hinv & ->).
  destruct (lookup_lt_is_Some_2 arr (Z.to_nat j)) as [x Hx]; [unfold Py.len in Hj; lia|].
  destruct (batch_body_spec (Z.to_nat j) x ft
              (positive_difference_sum (take (Z.to_nat j) arr)) Hx Hinv)
    as (ft' & Hbody & Hinv').
  rewrite Z2Nat.id in Hbody by lia.
  eexists. split; [exact Hbody|]. split; [lia|].
  exists ft'. replace (Z.to_nat (j + 1)) with (S (Z.to_nat j)) by lia.
  split; [exact Hinv'|].
  rewrite (take_S_r _ _ _ Hx), positive_difference_sum_snoc. reflexivity.
Qed.

(** A batch, with the clean-up that may follow it. *)
Lemma compact_batch_step batch_size st start :
  0 < batch_size → 0 <= start < Py.len arr → compact_pass_inv arr start st →
  ∃ st',
    ('(ft, total_sum) ←
       Py.for_in (memory_optimized_solution.batch_body arr (rank_of arr)) st
         (Py.range start (Z.min (start + batch_size) (Py.len arr)));
     if bool_decide (start `mod` (batch_size * 5) = 0)
     then Some (CompactFenwickTree.clear_unused ft, total_sum)
     else Some (ft, total_sum)) = Some st' ∧
    compact_pass_inv arr (Z.min (start + batch_size) (Py.len arr)) st'.
Proof.
  intros Hbs Hstart Hst.
  destruct (for_in_range_inv (compact_pass_inv arr)
    (memory_optimized_solution.batch_body arr (rank_of arr))
    start (Z.min (start + batch_size) (Py.len arr)) ltac:(lia)) with (st := st)
    as ([ft total_sum] & -> & Hend).
  - intros st1 j Hj. apply compact_pass_step. lia.
  - exact Hst.
  - cbn [mbind option_bind]. case_bool_decide; eexists; (split; [reflexivity|]);
      [|exact Hend].
    destruct Hend as (Hm & ft' & Hinv & [= -> ->]).
    split; [exact Hm|]. eexists. split; [|reflexivity].
    apply clear_unused_inv, Hinv.
Qed.

Lemma memory_optimized_correct :
  memory_optimized_solution.calculate_positive_differences_memory_optimized arr
  = Some (positive_difference_sum arr).
Proof.
  unfold memory_optimized_solution.calculate_positive_differences_memory_optimized.
  cbv zeta. case_bool_decide as Hn.
  - destruct arr as [|x [|y l]]; [reflexivity|cbn; f_equal; lia|].
    unfold Py.len in Hn. cbn in Hn. lia.
  - rewrite get_unique_values_streaming_spec.
    pose proof (Z.div_pos (Py.len arr) 10 ltac:(pose proof (len_nonneg arr); lia) ltac:(lia))
      as Hdiv.
    destruct (for_in_batches (compact_pass_inv arr)
      (λ st batch_start,
         '(ft, total_sum) ←
           Py.for_in (memory_optimized_solution.batch_body arr (rank_of arr)) st
             (Py.range batch_start
                (Z.min (batch_start + Z.min 10000 (Py.len arr `div` 10 + 1)) (Py.len arr)));
         if bool_decide (batch_start `mod` (Z.min 10000 (Py.len arr `div` 10 + 1) * 5) = 0)
         then Some (CompactFenwickTree.clear_unused ft, total_sum)
         else Some (ft, total_sum))
      (Py.len arr) (Z.min 10000 (Py.len arr `div` 10 + 1)) ltac:(lia) (len_nonneg arr))
      with (st := (CompactFenwickTree.init, 0))
      as (starts & st & -> & Hrun & Hst).
    + intros st start Hstart Hst. apply compact_batch_step; [lia|lia|exact Hst].
    + split; [pose proof (len_nonneg arr); lia|].
      exists CompactFenwickTree.init. split; [|reflexivity].
      change (Z.to_nat 0) with 0%nat. rewrite take_0. apply compact_init_inv.
    + cbn [mbind option_bind]. rewrite Hrun. cbn [mbind option_bind].
      destruct Hst as (_ & ft & _ & ->). cbn. unfold Py.len.
      rewrite Nat2Z.id, firstn_all. reflexivity.
Qed.

End memory_optimized.

(** ** [calculate_positive_differences_chunked] *)

Section chunked.

Lemma cross_gain_cons_l x l1 l2 :
  cross_gain (x :: l1) l2 = gain_from x l2 + cross_gain l1 l2.
Proof.
  unfold cross_gain. induction l2 as [|y l2 IH]; [reflexivity|].
  cbn [foldr]. rewrite IH. cbn [gain_over gain_from]. lia.
Qed.

Lemma cross_gain_nil_l l2 : cross_gain [] l2 = 0.
Proof.
  unfold cross_gain. induction l2 as [|y l2 IH]; [reflexivity|].
  cbn [foldr]. rewrite IH. reflexivity.
Qed.

Lemma cross_gain_snoc l1 l2 y :
  cross_gain l1 (l2 ++ [y]) = cross_gain l1 l2 + gain_over y l1.
Proof.
  unfold cross_gain. induction l2 as [|z l2 IH]; [cbn; lia|].
  cbn [app foldr]. rewrite IH. lia.
Qed.

(** The pairs of a sequence cut in two: those inside the first part, those
    across, and those inside the second part. *)
Lemma positive_difference_sum_app l1 l2 :
  positive_difference_sum (l1 ++ l2)
  = positive_difference_sum l1 + cross_gain l1 l2 + positive_difference_sum l2.
Proof.
  induction l1 as [|x l1 IH]; cbn [app positive_difference_sum].
  - rewrite cross_gain_nil_l. lia.
  - rewrite IH, gain_from_app, cross_gain_cons_l. lia.
Qed.

Lemma len_slice {A} (l : list A) lo hi :
  0 <= lo <= hi → hi <= Py.len l → Py.len (Py.slice l lo hi) = hi - lo.
Proof.
  unfold Py.slice, Py.len. intros Hlo Hhi.
  rewrite length_take, length_drop. lia.
Qed.

Lemma slice_lookup {A} (l : list A) lo hi (k : nat) :
  0 <= lo → (Z.to_nat lo <= k < Z.to_nat hi)%nat →
  Py.slice l lo hi !! (k - Z.to_nat lo)%nat = l !! k.
Proof.
  unfold Py.slice. intros Hlo Hk.
  rewrite lookup_take_lt by lia. rewrite lookup_drop. f_equal. lia.
Qed.

(** The part from [lo] on is the slice followed by the part from [hi] on. *)
Lemma drop_slice {A} (l : list A) lo hi :
  0 <= lo <= hi →
  drop (Z.to_nat lo) l = Py.slice l lo hi ++ drop (Z.to_nat hi) l.
Proof.
  unfold Py.slice. intros Hlo.
  rewrite <- (take_drop (Z.to_nat hi - Z.to_nat lo) (drop (Z.to_nat lo) l)) at 1.
  rewrite drop_drop. do 2 f_equal. lia.
Qed.

Variable arr : list Z.

(** The loop over [k] in the chunk, for one later index [j]. *)
Lemma cross_inner_loop lo hi (j : nat) aj acc :
  0 <= lo <= hi → hi <= Py.len arr → arr !! j = Some aj →
  Py.for_in (λ total_sum k,
      aj ← Py.getitem arr (Z.of_nat j);
      ak ← Py.getitem arr k;
      let diff := aj - ak in
      Some (if bool_decide (diff > 0) then total_sum + diff else total_sum))
    acc (Py.range lo hi)
  = Some (acc + gain_over aj (Py.slice arr lo hi)).
Proof.
  intros Hlo Hhi Hj. cbv zeta.
  destruct (for_in_range_inv
    (λ k total_sum,
       total_sum = acc + gain_over aj (take (Z.to_nat (k - lo)) (Py.slice arr lo hi)))
    (λ total_sum k,
      aj ← Py.getitem arr (Z.of_nat j);
      ak ← Py.getitem arr k;
      Some (if bool_decide (aj - ak > 0) then total_sum + (aj - ak) else total_sum))
    lo hi ltac:(lia)) with (st := acc) as (total & Hrun & Htotal).
  - intros total k Hk ->.
    destruct (lookup_lt_is_Some_2 arr (Z.to_nat k)) as [ak Hak];
      [unfold Py.len in Hhi; lia|].
    cbv beta.
    rewrite getitem_lookup by (eapply lookup_lt_Some; eauto). rewrite Hj.
    cbn [mbind option_bind].
    assert (Hget : Py.getitem arr k = Some ak).
    { rewrite <- (Z2Nat.id k) by lia. rewrite getitem_lookup; [exact Hak|].
      eapply lookup_lt_Some; eauto. }
    rewrite Hget.
    cbn [mbind option_bind]. eexists. split; [reflexivity|].
    replace (Z.to_nat (k + 1 - lo)) with (S (Z.to_nat (k - lo))) by lia.
    assert (Hslice : Py.slice arr lo hi !! Z.to_nat (k - lo) = Some ak).
    { rewrite <- Hak. replace (Z.to_nat (k - lo)) with (Z.to_nat k - Z.to_nat lo)%nat by lia.
      apply slice_lookup; lia. }
    rewrite (take_S_r _ _ _ Hslice), gain_over_app. cbn. unfold gain.
    case_bool_decide; lia.
  - replace (Z.to_nat (lo - lo)) with 0%nat by lia. rewrite take_0. cbn. lia.
  - rewrite Hrun, Htotal. do 3 f_equal. apply take_ge.
    pose proof (len_slice arr lo hi Hlo Hhi) as Hlen. unfold Py.len in Hlen. lia.
Qed.

(** The two loops over the pairs across the end of a chunk. *)
Lemma cross_loops lo hi acc :
  0 <= lo <= hi → hi <= Py.len arr →
  Py.for_in (λ total_sum j,
      Py.for_in (λ total_sum k,
          aj ← Py.getitem arr j;
          ak ← Py.getitem arr k;
          let diff := aj - ak in
          Some (if bool_decide (diff > 0) then total_sum + diff else total_sum))
        total_sum (Py.range lo hi))
    acc (Py.range hi (Py.len arr))
  = Some (acc + cross_gain (Py.slice arr lo hi) (drop (Z.to_nat hi) arr)).
Proof.
  intros Hlo Hhi.
  destruct (for_in_range_inv
    (λ j total_sum,
       total_sum = acc + cross_gain (Py.slice arr lo hi)
                           (take (Z.to_nat (j - hi)) (drop (Z.to_nat hi) arr)))
    (λ total_sum j,
      Py.for_in (λ total_sum k,
          aj ← Py.getitem arr j;
          ak ← Py.getitem arr k;
          let diff := aj - ak in
          Some (if bool_decide (diff > 0) then total_sum + diff else total_sum))
        total_sum (Py.range lo hi))
    hi (Py.len arr) Hhi) with (st := acc) as (total & Hrun & Htotal).
  - intros total j Hj ->.
    destruct (lookup_lt_is_Some_2 arr (Z.to_nat j)) as [aj Haj];
      [unfold Py.len in Hj; lia|].
    pose proof (cross_inner_loop lo hi (Z.to_nat j) aj
      (acc + cross_gain (Py.slice arr lo hi)
               (take (Z.to_nat (j - hi)) (drop (Z.to_nat hi) arr))) Hlo Hhi Haj) as Hin.
    rewrite Z2Nat.id in Hin by lia.
    eexists. split; [exact Hin|].
    replace (Z.to_nat (j + 1 - hi)) with (S (Z.to_nat (j - hi))) by lia.
    assert (Hd : drop (Z.to_nat hi) arr !! Z.to_nat (j - hi) = Some aj).
    { rewrite lookup_drop, <- Haj. f_equal. lia. }
    rewrite (take_S_r _ _ _ Hd), cross_gain_snoc. lia.
  - replace (Z.to_nat (hi - hi)) with 0%nat by lia. rewrite take_0. cbn. lia.
  - rewrite Hrun, Htotal. do 3 f_equal. apply take_ge.
    rewrite length_drop. unfold Py.len. lia.
Qed.

(** A slice has no more distinct values than the array, and no more than its
    own length. *)
Lemma rank_count_slice lo hi :
  0 <= lo <= hi → hi <= Py.len arr →
  rank_count (Py.slice arr lo hi) <= rank_count arr ∧
  rank_count (Py.slice arr lo hi) <= hi - lo.
Proof.
  intros Hlo Hhi. split.
  - destruct (rank_count_distinct (Py.slice arr lo hi)) as [-> _].
    destruct (rank_count_distinct arr) as [-> _].
    apply inj_le, subseteq_size. unfold Py.set, Py.slice.
    intros x. rewrite !elem_of_list_to_set. intros Hx.
    apply (subseteq_drop (Z.to_nat lo)). eapply subseteq_take. exact Hx.
  - destruct (rank_count_distinct (Py.slice arr lo hi)) as [_ Hle].
    rewrite len_slice in Hle by assumption. exact Hle.
Qed.

End chunked.

(** One chunk: its own pairs, then the pairs across its end. *)
Lemma chunk_step arr chunk_size total_sum i :
  0 < chunk_size → chunk_size <= 1024 ∨ rank_count arr <= 1024 →
  0 <= i < Py.len arr → chunked_inv arr i total_sum →
  ∃ total_sum',
    (chunk_sum ← memory_optimized_solution.calculate_positive_differences_memory_optimized
                   (Py.slice arr i (Z.min (i + chunk_size) (Py.len arr)));
     Py.for_in (λ total_sum j,
         Py.for_in (λ total_sum k,
             aj ← Py.getitem arr j;
             ak ← Py.getitem arr k;
             let diff := aj - ak in
             Some (if bool_decide (diff > 0) then total_sum + diff else total_sum))
           total_sum (Py.range i (Z.min (i + chunk_size) (Py.len arr))))
       (total_sum + chunk_sum)
       (Py.range (Z.min (i + chunk_size) (Py.len arr)) (Py.len arr)))
    = Some total_sum' ∧
    chunked_inv arr (Z.min (i + chunk_size) (Py.len arr)) total_sum'.
Proof.
  intros Hcs Hsmall Hi (_ & ->).
  set (chunk_end := Z.min (i + chunk_size) (Py.len arr)).
  assert (Hrange : 0 <= i <= chunk_end ∧ chunk_end <= Py.len arr) by (unfold chunk_end; lia).
  destruct Hrange as [Hlo Hhi].
  destruct (rank_count_slice arr i chunk_end Hlo Hhi) as [Hsub Hlen].
  rewrite memory_optimized_correct by (unfold chunk_end in *; lia).
  cbn [mbind option_bind]. rewrite (cross_loops arr i chunk_end _ Hlo Hhi).
  eexists. split; [reflexivity|]. split; [lia|].
  rewrite (drop_slice arr i chunk_end Hlo), positive_difference_sum_app. lia.
Qed.

(** [calculate_positive_differences_chunked] returns the sum over all pairs
    when the chunk size is positive and no chunk can hold more than 1024
    distinct values. *)
Lemma chunked_correct arr chunk_size :
  0 < chunk_size → chunk_size <= 1024 ∨ rank_count arr <= 1024 →
  memory_optimized_solution.calculate_positive_differences_chunked arr chunk_size
  = Some (positive_difference_sum arr).
Proof.
  intros Hcs Hsmall.
  unfold memory_optimized_solution.calculate_positive_differences_chunked. cbv zeta.
  case_bool_decide as Hn.
  - apply memory_optimized_correct.
    destruct (rank_count_distinct arr) as [_ Hle]. lia.
  - destruct (for_in_batches (chunked_inv arr)
      (λ total_sum i,
         chunk_sum ← memory_optimized_solution.calculate_positive_differences_memory_optimized
                       (Py.slice arr i (Z.min (i + chunk_size) (Py.len arr)));
         Py.for_in (λ total_sum j,
             Py.for_in (λ total_sum k,
                 aj ← Py.getitem arr j;
                 ak ← Py.getitem arr k;
                 let diff := aj - ak in
                 Some (if bool_decide (diff > 0) then total_sum + diff else total_sum))
               total_sum (Py.range i (Z.min (i + chunk_size) (Py.len arr))))
           (total_sum + chunk_sum)
           (Py.range (Z.min (i + chunk_size) (Py.len arr)) (Py.len arr)))
      (Py.len arr) chunk_size Hcs (len_nonneg arr)) with (st := 0)
      as (starts & total & -> & Hrun & Htotal).
    + intros total i Hi Hinv. apply chunk_step; assumption.
    + split; [pose proof (len_nonneg arr); lia|].
      change (Z.to_nat 0) with 0%nat. rewrite drop_0. lia.
    + cbn [mbind option_bind]. cbv zeta in Hrun. rewrite Hrun. f_equal.
      destruct Htotal as (_ & ->). unfold Py.len. rewrite Nat2Z.id, drop_all.
      cbn. lia.
Qed.

(** ** Ranks outside the range of a dense tree *)

Section out_of_range.

(** From a rank that is not positive the update walk never gets above 0. *)
Lemma lowbit_nonpositive idx : idx <= 0 → idx + Py.lowbit idx <= 0.
Proof.
  intros Hidx. destruct (decide (idx = 0)) as [->|Hne]; [vm_compute; discriminate|].
  rewrite <- lowbit_opp. pose proof (lowbit_bounds (- idx) ltac:(lia)). lia.
Qed.

Lemma update_loop_nonpositive val :
  ∀ fuel ft idx, 0 <= FenwickTree.size ft → idx <= 0 →
  FenwickTree.update_loop fuel ft idx val = None.
Proof.
  intros fuel. induction fuel as [|fuel IH]; intros ft idx Hsize Hidx;
    cbn [FenwickTree.update_loop]; rewrite bool_decide_eq_true_2 by lia; [reflexivity|].
  destruct (Py.getitem (FenwickTree.count_tree ft) idx); [|reflexivity]. cbn.
  destruct (Py.setitem (FenwickTree.count_tree ft) idx _); [|reflexivity]. cbn.
  destruct (Py.getitem (FenwickTree.sum_tree ft) idx); [|reflexivity]. cbn.
  destruct (Py.setitem (FenwickTree.sum_tree ft) idx _); [|reflexivity]. cbn.
  apply IH; [assumption|apply lowbit_nonpositive, Hidx].
Qed.

(** A read above the end of the list raises at the first iteration. *)
Lemma query_loop_above tree fuel idx acc :
  Py.len tree <= idx → 0 < idx → (0 < fuel)%nat →
  FenwickTree.query_loop fuel tree idx acc = None.
Proof.
  intros Hidx Hpos Hfuel. destruct fuel as [|fuel]; [lia|].
  cbn [FenwickTree.query_loop]. rewrite bool_decide_eq_true_2 by lia.
  unfold Py.getitem, Py.index.
  rewrite !bool_decide_eq_false_2 by lia. reflexivity.
Qed.

End out_of_range.

(** ** Reads of the dictionary-backed tree *)

Section compact_reads.

(** A query returns a value for every index, and two dictionaries that read
    alike give the same value. *)
Lemma compact_query_loop_cells :
  ∀ fuel tree1 tree2 idx acc,
  (∀ i, cell tree1 i = cell tree2 i) → (Z.to_nat idx <= fuel)%nat →
  ∃ r tree1' tree2',
    CompactFenwickTree.query_loop fuel tree1 idx acc = Some (r, tree1') ∧
    CompactFenwickTree.query_loop fuel tree2 idx acc = Some (r, tree2').
Proof.
  intros fuel. induction fuel as [|fuel IH]; intros tree1 tree2 idx acc Hcells Hfuel.
  - cbn. rewrite bool_decide_eq_false_2 by lia. eauto.
  - cbn [CompactFenwickTree.query_loop]. case_bool_decide as Hpos; [|eauto].
    pose proof (lowbit_bounds idx ltac:(lia)) as Hlb.
    pose proof (dd_getitem_cell tree1 idx) as [Hv1 Hc1].
    pose proof (dd_getitem_cell tree2 idx) as [Hv2 Hc2].
    destruct (CompactFenwickTree.dd_getitem tree1 idx) as [c1 t1].
    destruct (CompactFenwickTree.dd_getitem tree2 idx) as [c2 t2].
    cbn in Hv1, Hc1, Hv2, Hc2. subst c1 c2. rewrite (Hcells idx).
    apply IH; [|lia]. intros i. rewrite Hc1, Hc2. apply Hcells.
Qed.

(** After [clear_unused] no stored value is 0. *)
Lemma clear_unused_no_zero (tree : gmap Z Z) k v :
  filter (λ kv : Z * Z, kv.2 ≠ 0) tree !! k = Some v → v ≠ 0.
Proof. intros [_ Hv]%map_lookup_filter_Some. exact Hv. Qed.

End compact_reads.

(** ** Chunk sizes that are not positive *)

Section chunk_size.

Lemma range_step_negative n step :
  0 <= n → step < 0 → Py.range_step 0 n step = Some [].
Proof.
  intros Hn Hstep. unfold Py.range_step.
  rewrite !bool_decide_eq_false_2 by lia.
  assert ((0 - n - step - 1) `div` (- step) <= 0) as Hdiv.
  { destruct (decide (0 - n - step - 1 < 0)) as [Hneg|Hnn].
    - pose proof (Z.div_lt_upper_bound (0 - n - step - 1) (- step) 0 ltac:(lia) ltac:(lia)).
      lia.
    - rewrite Z.div_small by lia. lia. }
  replace (Z.to_nat ((0 - n - step - 1) `div` (- step))) with 0%nat by lia.
  reflexivity.
Qed.

End chunk_size.

(** ** The sum of positive differences under a shift of all values *)

Section shift.

Variable c : Z.

Lemma gain_shift y x : gain (y + c) (x + c) = gain y x.
Proof. unfold gain. repeat case_bool_decide; lia. Qed.

Lemma gain_from_shift x l : gain_from (x + c) ((λ v, v + c) <$> l) = gain_from x l.
Proof. induction l as [|y l IH]; cbn; [reflexivity|]. rewrite IH, gain_shift. reflexivity. Qed.

Lemma positive_difference_sum_shift l :
  positive_difference_sum ((λ v, v + c) <$> l) = positive_difference_sum l.
Proof. induction l as [|x l IH]; cbn; [reflexivity|]. rewrite IH, gain_from_shift. reflexivity. Qed.

End shift.

Lemma positive_difference_sum_nonneg l : 0 <= positive_difference_sum l.
Proof.
  pose proof (positive_difference_sum_app_le [] l) as H. cbn in H. exact H.
Qed.

(** ** Sequences of insertions into the dictionary-backed tree *)

Lemma compact_insert_all_spec ins :
  Forall (λ rv : Z * Z, 1 <= rv.1) ins →
  ∀ ft ins0, compact_inv ft ins0 →
  ∃ ft', compact_insert_all ft ins = Some ft' ∧ compact_inv ft' (ins0 ++ ins).
Proof.
  unfold compact_insert_all. induction 1 as [|[p v] ins Hp _ IH]; intros ft ins0 Hinv.
  - exists ft. rewrite app_nil_r. split; [reflexivity|assumption].
  - cbn [Py.for_in fst snd]. cbn in Hp.
    destruct (compact_update_spec ft ins0 p v Hinv Hp) as (ft1 & -> & Hinv1).
    cbn [mbind option_bind]. destruct (IH ft1 _ Hinv1) as (ft' & Hrun & Hinv').
    exists ft'. split; [exact Hrun|]. rewrite <- app_assoc in Hinv'. exact Hinv'.
Qed.

(** The number of distinct values, as the rank count. *)
Lemma rank_count_size arr : rank_count arr = Z.of_nat (size (Py.set arr)).
Proof. apply rank_count_distinct. Qed.

(** * Further theorems on the sources *)

(** X1.  The implementations over the dense tree,
    [calculate_positive_differences_optimized],
    [calculate_with_coordinate_compression] and
    [calculate_positive_differences_sum_efficient], return a value on every
    input, and it is the value of the reference double loop. *)
Theorem dense_implementations_agree (arr : list Z) :
  ∃ r, calculate_positive_differences_naive arr = Some r ∧
       calculate_positive_differences_optimized arr = Some r ∧
       optimized_sum_algorithm.calculate_with_coordinate_compression arr = Some r ∧
       optimized_sum_algorithm.calculate_positive_differences_sum_efficient arr = Some r.
Proof.
  exists (positive_difference_sum arr).
  pose proof (optimized_correct arr) as Hopt.
  split_and!; [apply naive_correct|exact Hopt|exact Hopt|].
  unfold optimized_sum_algorithm.calculate_positive_differences_sum_efficient.
  cbv zeta. case_bool_decide as Hn; [|exact Hopt].
  rewrite <- Hopt. unfold calculate_positive_differences_optimized. cbv zeta.
  rewrite bool_decide_eq_true_2 by exact Hn. reflexivity.
Qed.

(** X2.  The quadratic [calculate_positive_differences_sum_simple_optimized]
    and [calculate_with_coordinate_compression], which [test_algorithms]
    compares, return the same value on every input. *)
Theorem simple_optimized_agrees (arr : list Z) :
  ∃ r, optimized_sum_algorithm.calculate_positive_differences_sum_simple_optimized arr
       = Some r ∧
       optimized_sum_algorithm.calculate_with_coordinate_compression arr = Some r ∧
       calculate_positive_differences_naive arr = Some r.
Proof.
  exists (positive_difference_sum arr).
  split_and!; [apply simple_optimized_correct|apply optimized_correct|apply naive_correct].
Qed.

(** X3.  In [sum_positive_differences.py] the loop taken by the later index
    ([calculate_positive_differences_sum_optimized]) and
    [calculate_positive_differences_sum_advanced] return, on every input, the
    value of [calculate_positive_differences_sum_naive]. *)
Theorem sum_positive_differences_agree (arr : list Z) :
  ∃ r, sum_positive_differences.calculate_positive_differences_sum_naive arr = Some r ∧
       sum_positive_differences.calculate_positive_differences_sum_optimized arr = Some r ∧
       sum_positive_differences.calculate_positive_differences_sum_advanced arr = Some r.
Proof.
  exists (positive_difference_sum arr).
  split_and!; [apply sum_naive_correct|apply sum_optimized_correct..].
Qed.

(** X4.  The two functions of [simple_memory_optimized.py], which keep the
    tree in two lists of length [max_rank + 1], return on every input the
    value of the reference double loop. *)
Theorem simple_memory_optimized_agrees (arr : list Z) :
  ∃ r, calculate_positive_differences_naive arr = Some r ∧
       simple_memory_optimized.calculate_positive_differences_memory_optimized arr
       = Some r ∧
       simple_memory_optimized.calculate_positive_differences_streaming arr = Some r.
Proof.
  exists (positive_difference_sum arr).
  split_and!; [apply naive_correct|apply simple_memory_optimized_correct
              |apply streaming_correct].
Qed.

(** X5.  On an input with at most 1024 distinct values,
    [calculate_positive_differences_memory_optimized] of
    [memory_optimized_solution.py] returns the value of the reference double
    loop. *)
Theorem memory_optimized_agrees_up_to_1024 (arr : list Z) :
  Z.of_nat (size (Py.set arr)) <= 1024 →
  ∃ r, calculate_positive_differences_naive arr = Some r ∧
       memory_optimized_solution.calculate_positive_differences_memory_optimized arr
       = Some r.
Proof.
  intros Hdistinct. exists (positive_difference_sum arr).
  split; [apply naive_correct|].
  apply memory_optimized_correct. rewrite rank_count_size. exact Hdistinct.
Qed.

Lemma memory_optimized_agrees_up_to_1024_witness :
  Z.of_nat (size (Py.set [1; 3; 2; 4])) <= 1024 ∧
  ∃ r, calculate_positive_differences_naive [1; 3; 2; 4] = Some r ∧
       memory_optimized_solution.calculate_positive_differences_memory_optimized
         [1; 3; 2; 4] = Some r.
Proof.
  assert (H : Z.of_nat (size (Py.set [1; 3; 2; 4])) <= 1024) by (vm_compute; discriminate).
  split; [exact H|]. exact (memory_optimized_agrees_up_to_1024 [1; 3; 2; 4] H).
Defined.

(** X6.  With a positive chunk size, [calculate_positive_differences_chunked]
    returns the value of the reference double loop when the chunk size is at
    most 1024 or the input has at most 1024 distinct values. *)
Theorem chunked_agrees_for_small_chunks (arr : list Z) (chunk_size : Z) :
  0 < chunk_size →
  chunk_size <= 1024 ∨ Z.of_nat (size (Py.set arr)) <= 1024 →
  ∃ r, calculate_positive_differences_naive arr = Some r ∧
       memory_optimized_solution.calculate_positive_differences_chunked arr chunk_size
       = Some r.
Proof.
  intros Hcs Hsmall. exists (positive_difference_sum arr).
  split; [apply naive_correct|].
  apply chunked_correct; [exact Hcs|]. rewrite rank_count_size. exact Hsmall.
Qed.

Lemma chunked_agrees_for_small_chunks_witness :
  ∃ r, calculate_positive_differences_naive [1; 3; 2; 4; 0] = Some r ∧
       memory_optimized_solution.calculate_positive_differences_chunked [1; 3; 2; 4; 0] 2
       = Some r.
Proof.
  apply (chunked_agrees_for_small_chunks [1; 3; 2; 4; 0] 2); [lia|left; lia].
Defined.

(** X7.  On a non-empty input, [calculate_positive_differences_chunked]
    raises when the chunk size is 0 (the step of [range]) and returns 0 when
    the chunk size is negative (the loop over the chunks is empty). *)
Theorem chunked_nonpositive_chunk_size (arr : list Z) (chunk_size : Z) :
  arr ≠ [] → chunk_size <= 0 →
  memory_optimized_solution.calculate_positive_differences_chunked arr chunk_size
  = if bool_decide (chunk_size = 0) then None else Some 0.
Proof.
  intros Harr Hcs.
  unfold memory_optimized_solution.calculate_positive_differences_chunked. cbv zeta.
  assert (0 < Py.len arr) by (destruct arr; [congruence|unfold Py.len; cbn; lia]).
  rewrite bool_decide_eq_false_2 by lia.
  case_bool_decide as Hzero.
  - subst chunk_size. reflexivity.
  - rewrite range_step_negative by lia. reflexivity.
Qed.

Lemma chunked_nonpositive_chunk_size_witness :
  memory_optimized_solution.calculate_positive_differences_chunked [1; 2] 0 = None ∧
  memory_optimized_solution.calculate_positive_differences_chunked [1; 2] (-3) = Some 0 ∧
  calculate_positive_differences_naive [1; 2] = Some 1.
Proof.
  split_and!.
  - apply (chunked_nonpositive_chunk_size [1; 2] 0); [discriminate|lia].
  - apply (chunked_nonpositive_chunk_size [1; 2] (-3)); [discriminate|lia].
  - reflexivity.
Defined.

(** X8.  After any insertions at ranks in [1, k] into the dense
    [FenwickTree] of size [k], the prefix queries at a rank [r] in [0, k]
    return the number and the value-sum of the inserted pairs of rank at most
    [r]. *)
Theorem dense_tree_prefix_queries (k : Z) (ins : list (Z * Z)) (r : Z) :
  0 <= k → Forall (λ rv : Z * Z, 1 <= rv.1 <= k) ins → 0 <= r <= k →
  ∃ ft, insert_all (FenwickTree.init k) ins = Some ft ∧
        FenwickTree.query_count ft r = Some (count_upto r ins) ∧
        FenwickTree.query_sum ft r = Some (sum_upto r ins).
Proof. exact (dense_prefix_queries k ins r). Qed.

Lemma dense_tree_prefix_queries_witness :
  ∃ ft, insert_all (FenwickTree.init 4) [(1, 7); (3, 2); (1, 5)] = Some ft ∧
        FenwickTree.query_count ft 2 = Some (count_upto 2 [(1, 7); (3, 2); (1, 5)]) ∧
        FenwickTree.query_sum ft 2 = Some (sum_upto 2 [(1, 7); (3, 2); (1, 5)]).
Proof.
  apply (dense_tree_prefix_queries 4 [(1, 7); (3, 2); (1, 5)] 2); [lia| |lia].
  repeat constructor; simpl; lia.
Defined.

(** X9.  On a dense tree of size [k] that holds any insertions at ranks in
    [1, k]: [update] at a rank above [k] returns at once and leaves the tree
    as it is; [update] at a rank that is not positive never returns a value,
    whatever the number of iterations allowed (the walk stays at or below 0,
    so it raises IndexError or loops for ever); the queries at a rank above [k] raise IndexError, and at a rank
    that is not positive they return 0. *)
Theorem dense_tree_out_of_range (k : Z) (ins : list (Z * Z)) :
  0 <= k → Forall (λ rv : Z * Z, 1 <= rv.1 <= k) ins →
  ∃ ft, insert_all (FenwickTree.init k) ins = Some ft ∧
        (∀ idx val, k < idx → FenwickTree.update ft idx val = Some ft) ∧
        (∀ idx val, idx <= 0 →
           FenwickTree.update ft idx val = None ∧
           ∀ fuel, FenwickTree.update_loop fuel ft idx val = None) ∧
        (∀ idx, k < idx → FenwickTree.query_count ft idx = None ∧
                          FenwickTree.query_sum ft idx = None) ∧
        (∀ idx, idx <= 0 → FenwickTree.query_count ft idx = Some 0 ∧
                           FenwickTree.query_sum ft idx = Some 0).
Proof.
  intros Hk Hins.
  destruct (insert_all_spec k ins Hins _ [] (init_spec k Hk))
    as (ft & Hrun & Hsize & [Hclen _] & [Hslen _]).
  exists ft. split_and!; [exact Hrun|..].
  - intros idx val Hidx. unfold FenwickTree.update.
    destruct (Z.to_nat _); cbn; rewrite bool_decide_eq_false_2 by lia; reflexivity.
  - intros idx val Hidx. split; [|intros fuel]; apply update_loop_nonpositive; lia.
  - intros idx Hidx.
    split; apply query_loop_above; lia.
  - intros idx Hidx. unfold FenwickTree.query_count, FenwickTree.query_sum.
    replace (Z.to_nat idx) with 0%nat by lia. cbn.
    rewrite !bool_decide_eq_false_2 by lia. split; reflexivity.
Qed.

Lemma dense_tree_out_of_range_witness :
  ∃ ft, insert_all (FenwickTree.init 4) [(1, 7); (3, 2)] = Some ft ∧
        FenwickTree.update ft 5 9 = Some ft ∧
        FenwickTree.update ft 0 9 = None ∧
        FenwickTree.query_count ft 5 = None ∧
        FenwickTree.query_count ft (-1) = Some 0.
Proof.
  destruct (dense_tree_out_of_range 4 [(1, 7); (3, 2)]) as (ft & Hrun & Hup & Hzero & Hq & Hneg);
    [lia|repeat constructor; simpl; lia|].
  exists ft. split_and!.
  - exact Hrun.
  - apply Hup. lia.
  - apply (Hzero 0 9). lia.
  - apply Hq. lia.
  - apply Hneg. lia.
Defined.

(** X10.  [clear_unused] changes no query answer: for every tree and every
    index, [query_count] and [query_sum] return a value, and they return the
    same value after [clear_unused]; and after [clear_unused] neither
    dictionary stores a 0. *)
Theorem clear_unused_keeps_answers (ft : CompactFenwickTree.t) (idx : Z) :
  (∃ c ft1 ft2,
     CompactFenwickTree.query_count ft idx = Some (c, ft1) ∧
     CompactFenwickTree.query_count (CompactFenwickTree.clear_unused ft) idx
     = Some (c, ft2)) ∧
  (∃ s ft1 ft2,
     CompactFenwickTree.query_sum ft idx = Some (s, ft1) ∧
     CompactFenwickTree.query_sum (CompactFenwickTree.clear_unused ft) idx
     = Some (s, ft2)) ∧
  (∀ k v, CompactFenwickTree.count_tree (CompactFenwickTree.clear_unused ft) !! k = Some v
          → v ≠ 0) ∧
  (∀ k v, CompactFenwickTree.sum_tree (CompactFenwickTree.clear_unused ft) !! k = Some v
          → v ≠ 0).
Proof.
  split_and!.
  - destruct (compact_query_loop_cells (Z.to_nat idx)
      (CompactFenwickTree.count_tree ft)
      (CompactFenwickTree.count_tree (CompactFenwickTree.clear_unused ft)) idx 0)
      as (c & t1 & t2 & H1 & H2); [|lia|].
    { intros i. cbn. symmetry. apply clear_unused_cell. }
    unfold CompactFenwickTree.query_count. rewrite H1, H2. cbn. eauto.
  - destruct (compact_query_loop_cells (Z.to_nat idx)
      (CompactFenwickTree.sum_tree ft)
      (CompactFenwickTree.sum_tree (CompactFenwickTree.clear_unused ft)) idx 0)
      as (s & t1 & t2 & H1 & H2); [|lia|].
    { intros i. cbn. symmetry. apply clear_unused_cell. }
    unfold CompactFenwickTree.query_sum. rewrite H1, H2. cbn. eauto.
  - intros k v. apply clear_unused_no_zero.
  - intros k v. apply clear_unused_no_zero.
Qed.

(** X11.  After any insertions at ranks from 1 on into an empty
    [CompactFenwickTree], the prefix queries at a rank [r] up to 1023 return
    the number and the value-sum of the inserted pairs of rank at most [r]. *)
Theorem compact_prefix_queries_up_to_1023 (ins : list (Z * Z)) (r : Z) :
  Forall (λ rv : Z * Z, 1 <= rv.1) ins → 0 <= r <= 1023 →
  ∃ ft, compact_insert_all CompactFenwickTree.init ins = Some ft ∧
        fst <$> CompactFenwickTree.query_count ft r = Some (count_upto r ins) ∧
        fst <$> CompactFenwickTree.query_sum ft r = Some (sum_upto r ins).
Proof.
  intros Hins Hr.
  destruct (compact_insert_all_spec ins Hins _ [] compact_init_inv) as (ft & Hrun & Hinv).
  cbn in Hinv. exists ft. split; [exact Hrun|].
  destruct (compact_query_count_spec ft ins r Hinv Hr) as (ft1 & -> & _).
  destruct (compact_query_sum_spec ft ins r Hinv Hr) as (ft2 & -> & _).
  cbn. rewrite weight_in_count, weight_in_sum by assumption. split; reflexivity.
Qed.

Lemma compact_prefix_queries_up_to_1023_witness :
  ∃ ft, compact_insert_all CompactFenwickTree.init [(1, 7); (2000, 3); (1023, 5)] = Some ft ∧
        fst <$> CompactFenwickTree.query_count ft 1023
        = Some (count_upto 1023 [(1, 7); (2000, 3); (1023, 5)]) ∧
        fst <$> CompactFenwickTree.query_sum ft 1023
        = Some (sum_upto 1023 [(1, 7); (2000, 3); (1023, 5)]).
Proof.
  apply (compact_prefix_queries_up_to_1023 [(1, 7); (2000, 3); (1023, 5)] 1023); [|lia].
  repeat constructor; simpl; lia.
Defined.

(** X12.  [get_unique_values_streaming] returns the rank dictionary that the
    comprehension over [sorted(set(arr))] builds in
    [calculate_positive_differences_optimized], together with the number of
    distinct values of the input. *)
Theorem get_unique_values_streaming_ranks (arr : list Z) :
  memory_optimized_solution.get_unique_values_streaming arr
  = (value_to_rank_of (Py.sorted (Py.set arr)), Z.of_nat (size (Py.set arr))).
Proof.
  rewrite get_unique_values_streaming_spec, rank_count_size. reflexivity.
Qed.

(** X13.  Adding the same integer to every element changes the result of
    neither the reference double loop nor
    [calculate_positive_differences_optimized]. *)
Theorem result_invariant_under_shift (arr : list Z) (c : Z) :
  calculate_positive_differences_naive ((λ v, v + c) <$> arr)
  = calculate_positive_differences_naive arr ∧
  calculate_positive_differences_optimized ((λ v, v + c) <$> arr)
  = calculate_positive_differences_optimized arr.
Proof.
  rewrite !naive_correct, !optimized_correct, positive_difference_sum_shift.
  split; reflexivity.
Qed.

(** X14.  The result is never negative, and the result on a prefix of the
    input is at most the result on the whole input. *)
Theorem result_nonnegative_and_monotone (arr : list Z) (m : nat) :
  ∃ r r', calculate_positive_differences_naive arr = Some r ∧
          calculate_positive_differences_naive (take m arr) = Some r' ∧
          0 <= r' <= r.
Proof.
  exists (positive_difference_sum arr), (positive_difference_sum (take m arr)).
  split_and!; [apply naive_correct..| |].
  - apply positive_difference_sum_nonneg.
  - pose proof (positive_difference_sum_app_le (take m arr) (drop m arr)) as Hle.
    rewrite take_drop in Hle. exact Hle.
Qed.
